(** * PRD / SDD consultant: the session orchestration layer

    A shallow embedding of [src/app.component.ts] (the Angular component
    [AppComponent]) and of the service it injects ([GeminiService]).

    - JavaScript strings are sequences of UTF-16 code units: [list N].
    - The component's signals and plain fields are the fields of records;
      [window.alert] calls and the requests issued to the hosted model are
      recorded in two logs next to them.
    - Methods are programs of a small state-and-exception monad; the outcome
      of every awaited external call is an argument of the method.  A method
      runs from its call to the moment its promise settles without another
      handler interleaving (the UI disables the triggering control). *)

From Stdlib Require Import List NArith ZArith String Ascii Bool Lia QArith.
From Stdlib Require Import DecimalString Permutation.
From Stdlib Require Strings.Byte.
Import ListNotations.

Set Implicit Arguments.
Local Open Scope nat_scope.

(* ================================================================== *)
(** ** JavaScript strings *)
(* ================================================================== *)

Module Js.

Local Open Scope N_scope.

(** A string is its sequence of UTF-16 code units. *)
Definition jsstring := list N.

(** An ASCII literal of the source. *)
Definition lit (s : string) : jsstring :=
  List.map N_of_ascii (list_ascii_of_string s).

(** The characters matched by [\s] in a regular expression, which are also
    the ones removed by [String.prototype.trim]: WhiteSpace and
    LineTerminator of ECMA-262. *)
Definition is_ws (c : N) : bool :=
  (c =? 9) || (c =? 10) || (c =? 11) || (c =? 12) || (c =? 13) || (c =? 32)
  || (c =? 160) || (c =? 5760) || ((8192 <=? c) && (c <=? 8202))
  || (c =? 8232) || (c =? 8233) || (c =? 8239) || (c =? 8287)
  || (c =? 12288) || (c =? 65279).

Fixpoint drop_ws (s : jsstring) : jsstring :=
  match s with
  | c :: s' => if is_ws c then drop_ws s' else s
  | [] => []
  end.

(** [s.trim()] *)
Definition rtrim (s : jsstring) : jsstring := rev (drop_ws (rev s)).
Definition trim (s : jsstring) : jsstring := rtrim (drop_ws s).

(** [!s.trim()]: the string is empty or all white space. *)
Definition blank (s : jsstring) : bool :=
  match trim s with [] => true | _ :: _ => false end.

(** A string is falsy exactly when it is empty. *)
Definition truthy (s : jsstring) : bool :=
  match s with [] => false | _ :: _ => true end.

(** [x || d] where [x] is a string or [undefined]. *)
Definition or_else (x : option jsstring) (d : jsstring) : jsstring :=
  match x with
  | Some (c :: t) => c :: t
  | _ => d
  end.

(** Comparison of a pattern character with an input character. *)
Definition same (p c : N) : bool := p =? c.

(** Under the [i] flag (without [u]) both sides are canonicalised with
    [toUpperCase], and a character outside ASCII is never mapped into
    ASCII; a lower-case ASCII letter of the pattern therefore matches
    itself and its upper-case form only. *)
Definition same_ci (p c : N) : bool :=
  (p =? c) || ((97 <=? p) && (p <=? 122) && (c =? p - 32)).

(** The literal [p] matches at the start of [s]. *)
Fixpoint starts_with (eqc : N -> N -> bool) (p s : jsstring) : bool :=
  match p, s with
  | [], _ => true
  | _ :: _, [] => false
  | a :: p', c :: s' => eqc a c && starts_with eqc p' s'
  end.

(** Decimal rendering of a length inside a template literal. *)
Definition decimal (n : nat) : jsstring :=
  lit (NilEmpty.string_of_uint (Nat.to_uint n)).

(** [parts.join(sep)] *)
Fixpoint join (sep : jsstring) (parts : list jsstring) : jsstring :=
  match parts with
  | [] => []
  | [p] => p
  | p :: rest => p ++ sep ++ join sep rest
  end.

End Js.

Import Js.

(* ================================================================== *)
(** ** GeminiService: the pure post-processing of replies *)
(* ================================================================== *)

Module Reply.

Definition fence : jsstring := lit "```".
Definition startuml : jsstring := lit "@startuml".
Definition enduml : jsstring := lit "@enduml".

(** [([\s\S]*?)@enduml] tried at the start of [s]: the lazy star takes no
    character first and one more after each failure ([[\s\S]] matches every
    code unit).  Returns the captured text. *)
Fixpoint lazy_until (stop s : jsstring) : option jsstring :=
  if starts_with same stop s then Some []
  else match s with
       | [] => None
       | c :: s' => option_map (cons c) (lazy_until stop s')
       end.

(** [text.match(/@startuml([\s\S]*?)@enduml/)]: the start positions are
    tried from left to right; the result is capture group 1 of the first
    position where the whole pattern matches. *)
Fixpoint match_uml (s : jsstring) : option jsstring :=
  let later := match s with [] => None | _ :: s' => match_uml s' end in
  if starts_with same startuml s then
    match lazy_until enduml (skipn (List.length startuml) s) with
    | Some captured => Some captured
    | None => later
    end
  else later.

(** A string that ends with a fence followed by white space only, split at
    that fence.  The three back-quotes of such a match are followed by no
    back-quote, so its position is unique: it is found from the end. *)
Definition split_close_fence (s : jsstring) : option jsstring :=
  let r := drop_ws (rev s) in
  if starts_with same fence r then Some (rev (skipn (List.length fence) r))
  else None.

(** [s.replace(/^```plantuml\s*/i, '')] *)
Definition strip_open_plantuml (s : jsstring) : jsstring :=
  let p := lit "```plantuml" in
  if starts_with same_ci p s then drop_ws (skipn (List.length p) s) else s.

(** [s.replace(/^```\s*/, '')] *)
Definition strip_open_fence (s : jsstring) : jsstring :=
  if starts_with same fence s then drop_ws (skipn (List.length fence) s) else s.

(** [s.replace(/```\s*$/, '')] *)
Definition strip_close_fence (s : jsstring) : jsstring :=
  match split_close_fence s with Some before => before | None => s end.

(** The tail of [generatePlantUML], from [const text = response.text || '']
    on. *)
Definition extractPlantUML (text : jsstring) : jsstring :=
  match match_uml text with
  | Some captured => startuml ++ captured ++ enduml
  | None =>
      trim (strip_close_fence (strip_open_fence (strip_open_plantuml text)))
  end.

(** [\s*([\s\S]*?)\s*```\s*$] tried at the start of [s], capture group 1.
    The pattern can only end at the closing fence found by
    [split_close_fence]; the lazy group then stops at the first position
    from which white space alone leads to that fence, and the greedy
    [\s*] before the group has taken all leading white space. *)
Definition match_block_tail (s : jsstring) : option jsstring :=
  match split_close_fence (drop_ws s) with
  | Some before => Some (rtrim before)
  | None => None
  end.

(** [text.match(/^\s*```(?:markdown)?\s*([\s\S]*?)\s*```\s*$/i)], capture
    group 1.  The optional group is tried with the word first and without
    it when that fails. *)
Definition match_code_block (text : jsstring) : option jsstring :=
  let t := drop_ws text in
  if starts_with same fence t then
    let rest := skipn (List.length fence) t in
    let md := lit "markdown" in
    let without := match_block_tail rest in
    if starts_with same_ci md rest then
      match match_block_tail (skipn (List.length md) rest) with
      | Some captured => Some captured
      | None => without
      end
    else without
  else None.

(** [text.replace(/^\s*```(?:markdown)?\s*/i, '')] *)
Definition strip_md_open (text : jsstring) : jsstring :=
  let t := drop_ws text in
  if starts_with same fence t then
    let rest := skipn (List.length fence) t in
    let md := lit "markdown" in
    if starts_with same_ci md rest then drop_ws (skipn (List.length md) rest)
    else drop_ws rest
  else text.

(** [text.replace(/\s*```\s*$/, '')]: the leftmost match starts at the
    white space that precedes the closing fence. *)
Definition strip_md_close (text : jsstring) : jsstring :=
  match split_close_fence text with
  | Some before => rtrim before
  | None => text
  end.

(** [cleanMarkdown] *)
Definition cleanMarkdown (text : jsstring) : jsstring :=
  match match_code_block text with
  | Some captured => trim captured
  | None => trim (strip_md_close (strip_md_open text))
  end.

End Reply.

Import Reply.

(* ================================================================== *)
(** ** The data model of the component *)
(* ================================================================== *)

Module Model.

Inductive Role := user | model.

Record Message := {
  role : Role;
  text : jsstring;
  images : option (list jsstring)  (* [images?: string[]] *)
}.

Record ImageAttachment := {
  mimeType : jsstring;
  data : jsstring;
  url : jsstring
}.

Inductive AppState := initial | consulting | generating | finished.
Inductive ResultTab := prd | diagram.
Inductive ViewMode := consultant | sdd.
Inductive SddMode := comprehensive | simplified | specific | interactive.

(** The two system instructions of the service; their text is never
    inspected. *)
Inductive Instruction := CONSULTANT_INSTRUCTION | ARCHITECT_INSTRUCTION.

(** What [ai.chats.create] was given. *)
Record Chat := {
  systemInstruction : Instruction;
  temperature : Q
}.

(** [new GoogleGenAI({ apiKey })] *)
Record ApiClient := { client_key : jsstring }.

Inductive Part :=
| TextPart (t : jsstring)
| InlineData (mime payload : jsstring).

(** The long prompts are template literals with one or two holes; only the
    holes are kept. *)
Inductive Content :=
| Text (t : jsstring)
| Parts (ps : list Part)
| PrdPrompt (conversationHistory platform : jsstring)
| PlantUmlPrompt (conversationHistory platform : jsstring)
| SddInitialPrompt (prdText : jsstring) (mode : SddMode).

Inductive Request :=
| ChatSend (c : Chat) (message : Content)
| GenerateContent (contents : Content).

(** How an awaited call to the hosted model settles: the promise rejects,
    or resolves with a response whose [text] may be [undefined]. *)
Inductive Outcome :=
| Rejects
| Resolves (response_text : option jsstring).

(** What a method can throw. *)
Inductive Thrown :=
| ConfigurationError (message : jsstring)
| DeliveryError.

(** The service, the component and the two logs. *)
Record World := {
  ai : option ApiClient;  (* [GeminiService.ai], unset until [setApiKey] *)
  targetPlatform : jsstring;
  state : AppState;
  activeTab : ResultTab;
  generationStatus : jsstring;
  messages : list Message;
  userInput : jsstring;
  selectedImages : list ImageAttachment;
  isChatLoading : bool;
  chatInstance : option Chat;
  prdContent : jsstring;
  plantUmlCode : jsstring;
  zoomLevel : Q;
  pan : Q * Q;
  sddInput : jsstring;
  sddMode : SddMode;
  sddResult : jsstring;
  isSddGenerating : bool;
  sddChatInstance : option Chat;
  sddMessages : list Message;
  sddReplyInput : jsstring;
  alerts : list jsstring;  (* every [alert(...)] so far, oldest first *)
  requests : list Request  (* every request sent to the model, oldest first *)
}.

(** Assignments to one field. *)
Definition set_ai (v : option ApiClient) (w : World) : World :=
  {| ai := v; targetPlatform := targetPlatform w; state := state w;
     activeTab := activeTab w; generationStatus := generationStatus w;
     messages := messages w; userInput := userInput w;
     selectedImages := selectedImages w; isChatLoading := isChatLoading w;
     chatInstance := chatInstance w; prdContent := prdContent w;
     plantUmlCode := plantUmlCode w; zoomLevel := zoomLevel w; pan := pan w;
     sddInput := sddInput w; sddMode := sddMode w; sddResult := sddResult w;
     isSddGenerating := isSddGenerating w;
     sddChatInstance := sddChatInstance w; sddMessages := sddMessages w;
     sddReplyInput := sddReplyInput w; alerts := alerts w;
     requests := requests w |}.

Definition set_state (v : AppState) (w : World) : World :=
  {| ai := ai w; targetPlatform := targetPlatform w; state := v;
     activeTab := activeTab w; generationStatus := generationStatus w;
     messages := messages w; userInput := userInput w;
     selectedImages := selectedImages w; isChatLoading := isChatLoading w;
     chatInstance := chatInstance w; prdContent := prdContent w;
     plantUmlCode := plantUmlCode w; zoomLevel := zoomLevel w; pan := pan w;
     sddInput := sddInput w; sddMode := sddMode w; sddResult := sddResult w;
     isSddGenerating := isSddGenerating w;
     sddChatInstance := sddChatInstance w; sddMessages := sddMessages w;
     sddReplyInput := sddReplyInput w; alerts := alerts w;
     requests := requests w |}.

Definition set_generationStatus (v : jsstring) (w : World) : World :=
  {| ai := ai w; targetPlatform := targetPlatform w; state := state w;
     activeTab := activeTab w; generationStatus := v; messages := messages w;
     userInput := userInput w; selectedImages := selectedImages w;
     isChatLoading := isChatLoading w; chatInstance := chatInstance w;
     prdContent := prdContent w; plantUmlCode := plantUmlCode w;
     zoomLevel := zoomLevel w; pan := pan w; sddInput := sddInput w;
     sddMode := sddMode w; sddResult := sddResult w;
     isSddGenerating := isSddGenerating w;
     sddChatInstance := sddChatInstance w; sddMessages := sddMessages w;
     sddReplyInput := sddReplyInput w; alerts := alerts w;
     requests := requests w |}.

Definition set_messages (v : list Message) (w : World) : World :=
  {| ai := ai w; targetPlatform := targetPlatform w; state := state w;
     activeTab := activeTab w; generationStatus := generationStatus w;
     messages := v; userInput := userInput w;
     selectedImages := selectedImages w; isChatLoading := isChatLoading w;
     chatInstance := chatInstance w; prdContent := prdContent w;
     plantUmlCode := plantUmlCode w; zoomLevel := zoomLevel w; pan := pan w;
     sddInput := sddInput w; sddMode := sddMode w; sddResult := sddResult w;
     isSddGenerating := isSddGenerating w;
     sddChatInstance := sddChatInstance w; sddMessages := sddMessages w;
     sddReplyInput := sddReplyInput w; alerts := alerts w;
     requests := requests w |}.

Definition set_userInput (v : jsstring) (w : World) : World :=
  {| ai := ai w; targetPlatform := targetPlatform w; state := state w;
     activeTab := activeTab w; generationStatus := generationStatus w;
     messages := messages w; userInput := v;
     selectedImages := selectedImages w; isChatLoading := isChatLoading w;
     chatInstance := chatInstance w; prdContent := prdContent w;
     plantUmlCode := plantUmlCode w; zoomLevel := zoomLevel w; pan := pan w;
     sddInput := sddInput w; sddMode := sddMode w; sddResult := sddResult w;
     isSddGenerating := isSddGenerating w;
     sddChatInstance := sddChatInstance w; sddMessages := sddMessages w;
     sddReplyInput := sddReplyInput w; alerts := alerts w;
     requests := requests w |}.

Definition set_selectedImages (v : list ImageAttachment) (w : World) : World :=
  {| ai := ai w; targetPlatform := targetPlatform w; state := state w;
     activeTab := activeTab w; generationStatus := generationStatus w;
     messages := messages w; userInput := userInput w; selectedImages := v;
     isChatLoading := isChatLoading w; chatInstance := chatInstance w;
     prdContent := prdContent w; plantUmlCode := plantUmlCode w;
     zoomLevel := zoomLevel w; pan := pan w; sddInput := sddInput w;
     sddMode := sddMode w; sddResult := sddResult w;
     isSddGenerating := isSddGenerating w;
     sddChatInstance := sddChatInstance w; sddMessages := sddMessages w;
     sddReplyInput := sddReplyInput w; alerts := alerts w;
     requests := requests w |}.

Definition set_isChatLoading (v : bool) (w : World) : World :=
  {| ai := ai w; targetPlatform := targetPlatform w; state := state w;
     activeTab := activeTab w; generationStatus := generationStatus w;
     messages := messages w; userInput := userInput w;
     selectedImages := selectedImages w; isChatLoading := v;
     chatInstance := chatInstance w; prdContent := prdContent w;
     plantUmlCode := plantUmlCode w; zoomLevel := zoomLevel w; pan := pan w;
     sddInput := sddInput w; sddMode := sddMode w; sddResult := sddResult w;
     isSddGenerating := isSddGenerating w;
     sddChatInstance := sddChatInstance w; sddMessages := sddMessages w;
     sddReplyInput := sddReplyInput w; alerts := alerts w;
     requests := requests w |}.

Definition set_chatInstance (v : option Chat) (w : World) : World :=
  {| ai := ai w; targetPlatform := targetPlatform w; state := state w;
     activeTab := activeTab w; generationStatus := generationStatus w;
     messages := messages w; userInput := userInput w;
     selectedImages := selectedImages w; isChatLoading := isChatLoading w;
     chatInstance := v; prdContent := prdContent w;
     plantUmlCode := plantUmlCode w; zoomLevel := zoomLevel w; pan := pan w;
     sddInput := sddInput w; sddMode := sddMode w; sddResult := sddResult w;
     isSddGenerating := isSddGenerating w;
     sddChatInstance := sddChatInstance w; sddMessages := sddMessages w;
     sddReplyInput := sddReplyInput w; alerts := alerts w;
     requests := requests w |}.

Definition set_prdContent (v : jsstring) (w : World) : World :=
  {| ai := ai w; targetPlatform := targetPlatform w; state := state w;
     activeTab := activeTab w; generationStatus := generationStatus w;
     messages := messages w; userInput := userInput w;
     selectedImages := selectedImages w; isChatLoading := isChatLoading w;
     chatInstance := chatInstance w; prdContent := v;
     plantUmlCode := plantUmlCode w; zoomLevel := zoomLevel w; pan := pan w;
     sddInput := sddInput w; sddMode := sddMode w; sddResult := sddResult w;
     isSddGenerating := isSddGenerating w;
     sddChatInstance := sddChatInstance w; sddMessages := sddMessages w;
     sddReplyInput := sddReplyInput w; alerts := alerts w;
     requests := requests w |}.

Definition set_plantUmlCode (v : jsstring) (w : World) : World :=
  {| ai := ai w; targetPlatform := targetPlatform w; state := state w;
     activeTab := activeTab w; generationStatus := generationStatus w;
     messages := messages w; userInput := userInput w;
     selectedImages := selectedImages w; isChatLoading := isChatLoading w;
     chatInstance := chatInstance w; prdContent := prdContent w;
     plantUmlCode := v; zoomLevel := zoomLevel w; pan := pan w;
     sddInput := sddInput w; sddMode := sddMode w; sddResult := sddResult w;
     isSddGenerating := isSddGenerating w;
     sddChatInstance := sddChatInstance w; sddMessages := sddMessages w;
     sddReplyInput := sddReplyInput w; alerts := alerts w;
     requests := requests w |}.

Definition set_zoomLevel (v : Q) (w : World) : World :=
  {| ai := ai w; targetPlatform := targetPlatform w; state := state w;
     activeTab := activeTab w; generationStatus := generationStatus w;
     messages := messages w; userInput := userInput w;
     selectedImages := selectedImages w; isChatLoading := isChatLoading w;
     chatInstance := chatInstance w; prdContent := prdContent w;
     plantUmlCode := plantUmlCode w; zoomLevel := v; pan := pan w;
     sddInput := sddInput w; sddMode := sddMode w; sddResult := sddResult w;
     isSddGenerating := isSddGenerating w;
     sddChatInstance := sddChatInstance w; sddMessages := sddMessages w;
     sddReplyInput := sddReplyInput w; alerts := alerts w;
     requests := requests w |}.

Definition set_pan (v : Q * Q) (w : World) : World :=
  {| ai := ai w; targetPlatform := targetPlatform w; state := state w;
     activeTab := activeTab w; generationStatus := generationStatus w;
     messages := messages w; userInput := userInput w;
     selectedImages := selectedImages w; isChatLoading := isChatLoading w;
     chatInstance := chatInstance w; prdContent := prdContent w;
     plantUmlCode := plantUmlCode w; zoomLevel := zoomLevel w; pan := v;
     sddInput := sddInput w; sddMode := sddMode w; sddResult := sddResult w;
     isSddGenerating := isSddGenerating w;
     sddChatInstance := sddChatInstance w; sddMessages := sddMessages w;
     sddReplyInput := sddReplyInput w; alerts := alerts w;
     requests := requests w |}.

Definition set_sddResult (v : jsstring) (w : World) : World :=
  {| ai := ai w; targetPlatform := targetPlatform w; state := state w;
     activeTab := activeTab w; generationStatus := generationStatus w;
     messages := messages w; userInput := userInput w;
     selectedImages := selectedImages w; isChatLoading := isChatLoading w;
     chatInstance := chatInstance w; prdContent := prdContent w;
     plantUmlCode := plantUmlCode w; zoomLevel := zoomLevel w; pan := pan w;
     sddInput := sddInput w; sddMode := sddMode w; sddResult := v;
     isSddGenerating := isSddGenerating w;
     sddChatInstance := sddChatInstance w; sddMessages := sddMessages w;
     sddReplyInput := sddReplyInput w; alerts := alerts w;
     requests := requests w |}.

Definition set_isSddGenerating (v : bool) (w : World) : World :=
  {| ai := ai w; targetPlatform := targetPlatform w; state := state w;
     activeTab := activeTab w; generationStatus := generationStatus w;
     messages := messages w; userInput := userInput w;
     selectedImages := selectedImages w; isChatLoading := isChatLoading w;
     chatInstance := chatInstance w; prdContent := prdContent w;
     plantUmlCode := plantUmlCode w; zoomLevel := zoomLevel w; pan := pan w;
     sddInput := sddInput w; sddMode := sddMode w; sddResult := sddResult w;
     isSddGenerating := v; sddChatInstance := sddChatInstance w;
     sddMessages := sddMessages w; sddReplyInput := sddReplyInput w;
     alerts := alerts w; requests := requests w |}.

Definition set_sddChatInstance (v : option Chat) (w : World) : World :=
  {| ai := ai w; targetPlatform := targetPlatform w; state := state w;
     activeTab := activeTab w; generationStatus := generationStatus w;
     messages := messages w; userInput := userInput w;
     selectedImages := selectedImages w; isChatLoading := isChatLoading w;
     chatInstance := chatInstance w; prdContent := prdContent w;
     plantUmlCode := plantUmlCode w; zoomLevel := zoomLevel w; pan := pan w;
     sddInput := sddInput w; sddMode := sddMode w; sddResult := sddResult w;
     isSddGenerating := isSddGenerating w; sddChatInstance := v;
     sddMessages := sddMessages w; sddReplyInput := sddReplyInput w;
     alerts := alerts w; requests := requests w |}.

Definition set_sddMessages (v : list Message) (w : World) : World :=
  {| ai := ai w; targetPlatform := targetPlatform w; state := state w;
     activeTab := activeTab w; generationStatus := generationStatus w;
     messages := messages w; userInput := userInput w;
     selectedImages := selectedImages w; isChatLoading := isChatLoading w;
     chatInstance := chatInstance w; prdContent := prdContent w;
     plantUmlCode := plantUmlCode w; zoomLevel := zoomLevel w; pan := pan w;
     sddInput := sddInput w; sddMode := sddMode w; sddResult := sddResult w;
     isSddGenerating := isSddGenerating w;
     sddChatInstance := sddChatInstance w; sddMessages := v;
     sddReplyInput := sddReplyInput w; alerts := alerts w;
     requests := requests w |}.

Definition set_sddReplyInput (v : jsstring) (w : World) : World :=
  {| ai := ai w; targetPlatform := targetPlatform w; state := state w;
     activeTab := activeTab w; generationStatus := generationStatus w;
     messages := messages w; userInput := userInput w;
     selectedImages := selectedImages w; isChatLoading := isChatLoading w;
     chatInstance := chatInstance w; prdContent := prdContent w;
     plantUmlCode := plantUmlCode w; zoomLevel := zoomLevel w; pan := pan w;
     sddInput := sddInput w; sddMode := sddMode w; sddResult := sddResult w;
     isSddGenerating := isSddGenerating w;
     sddChatInstance := sddChatInstance w; sddMessages := sddMessages w;
     sddReplyInput := v; alerts := alerts w; requests := requests w |}.

Definition set_alerts (v : list jsstring) (w : World) : World :=
  {| ai := ai w; targetPlatform := targetPlatform w; state := state w;
     activeTab := activeTab w; generationStatus := generationStatus w;
     messages := messages w; userInput := userInput w;
     selectedImages := selectedImages w; isChatLoading := isChatLoading w;
     chatInstance := chatInstance w; prdContent := prdContent w;
     plantUmlCode := plantUmlCode w; zoomLevel := zoomLevel w; pan := pan w;
     sddInput := sddInput w; sddMode := sddMode w; sddResult := sddResult w;
     isSddGenerating := isSddGenerating w;
     sddChatInstance := sddChatInstance w; sddMessages := sddMessages w;
     sddReplyInput := sddReplyInput w; alerts := v;
     requests := requests w |}.

Definition set_requests (v : list Request) (w : World) : World :=
  {| ai := ai w; targetPlatform := targetPlatform w; state := state w;
     activeTab := activeTab w; generationStatus := generationStatus w;
     messages := messages w; userInput := userInput w;
     selectedImages := selectedImages w; isChatLoading := isChatLoading w;
     chatInstance := chatInstance w; prdContent := prdContent w;
     plantUmlCode := plantUmlCode w; zoomLevel := zoomLevel w; pan := pan w;
     sddInput := sddInput w; sddMode := sddMode w; sddResult := sddResult w;
     isSddGenerating := isSddGenerating w;
     sddChatInstance := sddChatInstance w; sddMessages := sddMessages w;
     sddReplyInput := sddReplyInput w; alerts := alerts w; requests := v |}.

End Model.

Import Model.

(* ================================================================== *)
(** ** Methods as programs over the world *)
(* ================================================================== *)

Module Prog.

(** A method body: it ends with a value or with an exception, and in both
    cases with the world as the body left it. *)
Definition M (A : Type) : Type := World -> (Thrown + A) * World.

Definition ret {A} (a : A) : M A := fun w => (inr a, w).

Definition bind {A B} (c : M A) (k : A -> M B) : M B :=
  fun w =>
    match c w with
    | (inr a, w') => k a w'
    | (inl e, w') => (inl e, w')
    end.

Definition throw {A} (e : Thrown) : M A := fun w => (inl e, w).

Definition get : M World := fun w => (inr w, w).

Definition modify (f : World -> World) : M unit := fun w => (inr tt, f w).

(** [try { body } catch (e) { handler }] *)
Definition try_catch {A} (body : M A) (handler : Thrown -> M A) : M A :=
  fun w =>
    match body w with
    | (inr a, w') => (inr a, w')
    | (inl e, w') => handler e w'
    end.

(** [try { body } finally { final }] *)
Definition try_finally {A} (body : M A) (final : M unit) : M A :=
  fun w =>
    match body w with
    | (r, w') =>
        match final w' with
        | (inr _, w'') => (r, w'')
        | (inl e, w'') => (inl e, w'')
        end
    end.

(** The world in which the method's promise settles. *)
Definition after {A} (c : M A) (w : World) : World := snd (c w).

(** How the promise settles. *)
Definition settles {A} (c : M A) (w : World) : Thrown + A := fst (c w).

End Prog.

Import Prog.

Declare Scope prog_scope.
Delimit Scope prog_scope with prog.
Notation "x <- c ;; k" := (bind c (fun x => k))
  (at level 61, c at next level, right associativity) : prog_scope.
Notation "c ;; k" := (bind c (fun _ => k))
  (at level 61, right associativity) : prog_scope.
Local Open Scope prog_scope.

(* ================================================================== *)
(** ** GeminiService *)
(* ================================================================== *)

Module GeminiService.

(** [setApiKey(key)] *)
Definition setApiKey (key : jsstring) : M unit :=
  modify (set_ai (Some {| client_key := key |})).

Definition api_key_not_set : jsstring :=
  lit "API Key not set. Please provide a valid Gemini API Key.".

(** [ensureInitialized()] *)
Definition ensureInitialized : M unit :=
  w <- get ;;
  match ai w with
  | None => throw (ConfigurationError api_key_not_set)
  | Some _ => ret tt
  end.

(** [createChat()]: [ai.chats.create] builds the session object locally. *)
Definition createChat : M Chat :=
  ensureInitialized ;;
  ret {| systemInstruction := CONSULTANT_INSTRUCTION;
         temperature := (7 # 10)%Q |}.

(** [createSddChat()] *)
Definition createSddChat : M Chat :=
  ensureInitialized ;;
  ret {| systemInstruction := ARCHITECT_INSTRUCTION;
         temperature := (5 # 10)%Q |}.

(** One awaited request: it is recorded, then the promise settles as the
    outcome says. *)
Definition request (r : Request) (o : Outcome) : M (option jsstring) :=
  modify (fun w => set_requests (requests w ++ [r]) w) ;;
  match o with
  | Rejects => throw DeliveryError
  | Resolves t => ret t
  end.

(** [chat.sendMessage({ message })] *)
Definition chat_sendMessage (c : Chat) (message : Content) (o : Outcome)
  : M (option jsstring) :=
  request (ChatSend c message) o.

(** [ai.models.generateContent({ model, contents })] *)
Definition generateContent (contents : Content) (o : Outcome)
  : M (option jsstring) :=
  request (GenerateContent contents) o.

(** [generatePRD(conversationHistory, targetPlatform)] *)
Definition generatePRD (conversationHistory platform : jsstring)
    (o : Outcome) : M jsstring :=
  ensureInitialized ;;
  response_text <- generateContent (PrdPrompt conversationHistory platform) o ;;
  ret (cleanMarkdown (or_else response_text (lit "# Error Generating PRD"))).

(** [generatePlantUML(conversationHistory, targetPlatform)] *)
Definition generatePlantUML (conversationHistory platform : jsstring)
    (o : Outcome) : M jsstring :=
  ensureInitialized ;;
  response_text <-
    generateContent (PlantUmlPrompt conversationHistory platform) o ;;
  ret (extractPlantUML (or_else response_text [])).

(** [getSddInitialPrompt(prdContent, mode)]: one template per mode. *)
Definition getSddInitialPrompt (prdText : jsstring) (mode : SddMode)
  : Content :=
  SddInitialPrompt prdText mode.

End GeminiService.

Import GeminiService.

(* ================================================================== *)
(** ** AppComponent *)
(* ================================================================== *)

Module AppComponent.

(** '發生錯誤，請稍後再試。' *)
Definition start_fallback : jsstring :=
  [30332; 29983; 37679; 35492; 65292; 35531; 31245; 24460; 20877; 35430;
   12290]%N.
(** '連線錯誤。' *)
Definition send_fallback : jsstring := [36899; 32218; 37679; 35492; 12290]%N.
(** '連線錯誤，請重試。' *)
Definition sdd_fallback : jsstring :=
  [36899; 32218; 37679; 35492; 65292; 35531; 37325; 35430; 12290]%N.
(** '請分析這些圖片' *)
Definition analyse_images : jsstring :=
  [35531; 20998; 26512; 36889; 20123; 22294; 29255]%N.
(** '生成失敗，請重試' *)
Definition generation_failed : jsstring :=
  [29983; 25104; 22833; 25943; 65292; 35531; 37325; 35430]%N.
(** '對話啟動失敗' *)
Definition sdd_start_failed : jsstring :=
  [23565; 35441; 21855; 21205; 22833; 25943]%N.
(** '正在分析對話紀錄...' *)
Definition status_analysing : jsstring :=
  [27491; 22312; 20998; 26512; 23565; 35441; 32000; 37636; 46; 46; 46]%N.
(** '步驟 1/2: 正在撰寫產品需求文件 (PRD)...' *)
Definition status_step1 : jsstring :=
  [27493; 39519; 32; 49; 47; 50; 58; 32; 27491; 22312; 25776; 23531; 29986;
   21697; 38656; 27714; 25991; 20214; 32; 40; 80; 82; 68; 41; 46; 46; 46]%N.
(** '步驟 2/2: 正在繪製系統架構圖 (PlantUML)...' *)
Definition status_step2 : jsstring :=
  [27493; 39519; 32; 50; 47; 50; 58; 32; 27491; 22312; 32362; 35069; 31995;
   32113; 26550; 27083; 22294; 32; 40; 80; 108; 97; 110; 116; 85; 77; 76;
   41; 46; 46; 46]%N.
(** '完成！正在準備預覽...' *)
Definition status_done : jsstring :=
  [23436; 25104; 65281; 27491; 22312; 28310; 20633; 38928; 35261; 46; 46;
   46]%N.

(** [alert(text)] *)
Definition alert (t : jsstring) : M unit :=
  modify (fun w => set_alerts (alerts w ++ [t]) w).

(** [this.messages.update(m => [...m, msg])] *)
Definition push_message (msg : Message) : M unit :=
  modify (fun w => set_messages (messages w ++ [msg]) w).

(** [this.sddMessages.update(m => [...m, msg])] *)
Definition push_sddMessage (msg : Message) : M unit :=
  modify (fun w => set_sddMessages (sddMessages w ++ [msg]) w).

Definition user_message (t : jsstring) (imgs : list ImageAttachment)
  : Message :=
  {| role := user; text := t; images := Some (List.map url imgs) |}.

Definition plain_message (r : Role) (t : jsstring) : Message :=
  {| role := r; text := t; images := None |}.

Definition inline (img : ImageAttachment) : Part :=
  InlineData (mimeType img) (data img).

(** The guard shared by the two chat entry points:
    [!this.userInput().trim() && this.selectedImages().length === 0]. *)
Definition nothing_to_send (w : World) : bool :=
  blank (userInput w) && Nat.eqb (List.length (selectedImages w)) 0.

(** [async startConsultation()] *)
Definition startConsultation (reply : Outcome) : M unit :=
  w <- get ;;
  if nothing_to_send w then ret tt
  else
    let initialIdea := userInput w in
    let imgs := selectedImages w in
    modify (set_state consulting) ;;
    push_message (user_message initialIdea imgs) ;;
    modify (set_userInput []) ;;
    modify (set_selectedImages []) ;;
    modify (set_isChatLoading true) ;;
    c <- createChat ;;
    modify (set_chatInstance (Some c)) ;;
    try_finally
      (try_catch
         (response_text <-
            (if Nat.ltb 0 (List.length imgs) then
               let first :=
                 if truthy initialIdea then TextPart initialIdea
                 else TextPart analyse_images in
               chat_sendMessage c (Parts (first :: List.map inline imgs)) reply
             else chat_sendMessage c (Text initialIdea) reply) ;;
          push_message (plain_message model (or_else response_text [])))
         (fun _ => push_message (plain_message model start_fallback)))
      (modify (set_isChatLoading false)).

(** [async sendMessage()] *)
Definition sendMessage (reply : Outcome) : M unit :=
  w <- get ;;
  match chatInstance w with
  | None => ret tt
  | Some c =>
      if nothing_to_send w then ret tt
      else
        let t := userInput w in
        let imgs := selectedImages w in
        push_message (user_message t imgs) ;;
        modify (set_userInput []) ;;
        modify (set_selectedImages []) ;;
        modify (set_isChatLoading true) ;;
        try_finally
          (try_catch
             (response_text <-
                (if Nat.ltb 0 (List.length imgs) then
                   let first := if truthy t then [TextPart t] else [] in
                   chat_sendMessage c (Parts (first ++ List.map inline imgs))
                     reply
                 else chat_sendMessage c (Text t) reply) ;;
              push_message (plain_message model (or_else response_text [])))
             (fun _ => push_message (plain_message model send_fallback)))
          (modify (set_isChatLoading false))
  end.

(** [removeImage(index)]; [filter] hands the callback each element with its
    position, and [!==] compares that position with the argument. *)
Fixpoint filter_from {A} (keep : A -> nat -> bool) (i : nat) (l : list A)
  : list A :=
  match l with
  | [] => []
  | x :: l' =>
      if keep x i then x :: filter_from keep (S i) l'
      else filter_from keep (S i) l'
  end.

Definition array_filter {A} (keep : A -> nat -> bool) (l : list A) : list A :=
  filter_from keep 0 l.

Definition removeImage (index : Z) : M unit :=
  modify (fun w =>
    set_selectedImages
      (array_filter (fun _ i => negb (Z.of_nat i =? index)%Z)
         (selectedImages w)) w).

(** One line of the transcript compiled by [finishAndGenerate]. *)
Definition transcript_line (m : Message) : jsstring :=
  let who :=
    match role m with user => lit "User" | model => lit "Consultant" end in
  let content := who ++ lit ": " ++ text m in
  match images m with
  | Some imgs =>
      if Nat.ltb 0 (List.length imgs) then
        content ++ [10%N] ++ lit "[User uploaded "
          ++ decimal (List.length imgs) ++ lit " image(s)]"
      else content
  | None => content
  end.

Definition transcript (ms : list Message) : jsstring :=
  join [10%N; 10%N] (List.map transcript_line ms).

(** [async finishAndGenerate()]; the two timers only delay. *)
Definition finishAndGenerate (prdReply umlReply : Outcome) : M unit :=
  modify (set_state generating) ;;
  w <- get ;;
  let history := transcript (messages w) in
  try_catch
    (modify (set_generationStatus status_analysing) ;;
     modify (set_generationStatus status_step1) ;;
     w1 <- get ;;
     prdText <- generatePRD history (targetPlatform w1) prdReply ;;
     modify (set_prdContent prdText) ;;
     modify (set_generationStatus status_step2) ;;
     w2 <- get ;;
     diagramText <- generatePlantUML history (targetPlatform w2) umlReply ;;
     modify (set_plantUmlCode diagramText) ;;
     modify (set_generationStatus status_done) ;;
     modify (set_state finished))
    (fun _ =>
       modify (set_state consulting) ;;
       alert generation_failed).

(** [resetZoom()] *)
Definition resetZoom : M unit :=
  modify (set_zoomLevel 1%Q) ;;
  modify (set_pan (0, 0)%Q).

(** [reset()] *)
Definition reset : M unit :=
  modify (set_state initial) ;;
  modify (set_messages []) ;;
  modify (set_prdContent []) ;;
  modify (set_plantUmlCode []) ;;
  modify (set_chatInstance None) ;;
  modify (set_selectedImages []) ;;
  resetZoom.

(** [async generateSdd()] *)
Definition generateSdd (reply : Outcome) : M unit :=
  w <- get ;;
  if blank (sddInput w) then ret tt
  else
    modify (set_isSddGenerating true) ;;
    modify (set_sddMessages []) ;;
    c <- createSddChat ;;
    modify (set_sddChatInstance (Some c)) ;;
    w1 <- get ;;
    let prompt := getSddInitialPrompt (sddInput w1) (sddMode w1) in
    try_finally
      (try_catch
         (response_text <- chat_sendMessage c prompt reply ;;
          let t := or_else response_text [] in
          push_sddMessage (plain_message model t) ;;
          modify (set_sddResult (cleanMarkdown t)))
         (fun _ => alert sdd_start_failed))
      (modify (set_isSddGenerating false)).

(** [async sendSddReply()] *)
Definition sendSddReply (reply : Outcome) : M unit :=
  w <- get ;;
  match sddChatInstance w with
  | None => ret tt
  | Some c =>
      if blank (sddReplyInput w) then ret tt
      else
        let t := sddReplyInput w in
        modify (set_sddReplyInput []) ;;
        push_sddMessage (plain_message user t) ;;
        modify (set_isSddGenerating true) ;;
        try_finally
          (try_catch
             (response_text <- chat_sendMessage c (Text t) reply ;;
              let respText := or_else response_text [] in
              push_sddMessage (plain_message model respText) ;;
              modify (set_sddResult (cleanMarkdown respText)))
             (fun _ => push_sddMessage (plain_message model sdd_fallback)))
          (modify (set_isSddGenerating false))
  end.

(** The field initialisers of the class and of the service. *)
Definition initial_world : World :=
  {| ai := None;
     targetPlatform := lit "Python";
     state := initial;
     activeTab := prd;
     generationStatus := [];
     messages := [];
     userInput := [];
     selectedImages := [];
     isChatLoading := false;
     chatInstance := None;
     prdContent := [];
     plantUmlCode := [];
     zoomLevel := 1%Q;
     pan := (0, 0)%Q;
     sddInput := [];
     sddMode := simplified;
     sddResult := [];
     isSddGenerating := false;
     sddChatInstance := None;
     sddMessages := [];
     sddReplyInput := [];
     alerts := [];
     requests := [] |}.

(** The two-way bindings of the chat box: the user types a text and
    attaches pictures before a send. *)
Definition compose (typed : jsstring) (attached : list ImageAttachment)
  : M unit :=
  modify (set_userInput typed) ;;
  modify (set_selectedImages attached).

End AppComponent.

Import AppComponent.

(* ================================================================== *)
(** ** The diagram URL *)
(* ================================================================== *)

Module Renderer.

Local Open Scope N_scope.

Definition b64_alphabet : jsstring :=
  lit "ABCDEFGHIJKLMNOPQRSTUVWXYZabcdefghijklmnopqrstuvwxyz0123456789+/".

Definition b64_char (i : N) : N := nth (N.to_nat i) b64_alphabet 0.

(** '=' *)
Definition b64_pad : N := 61.

(** Base64 of a sequence of octets, three at a time. *)
Fixpoint b64_groups (bin : list N) : jsstring :=
  match bin with
  | a :: b :: c :: rest =>
      b64_char (a / 4) :: b64_char ((a mod 4) * 16 + b / 16)
        :: b64_char ((b mod 16) * 4 + c / 64) :: b64_char (c mod 64)
        :: b64_groups rest
  | [a; b] =>
      [b64_char (a / 4); b64_char ((a mod 4) * 16 + b / 16);
       b64_char ((b mod 16) * 4); b64_pad]
  | [a] => [b64_char (a / 4); b64_char ((a mod 4) * 16); b64_pad; b64_pad]
  | [] => []
  end.

(** [btoa(binary)]: it throws when a character is above 255. *)
Definition btoa (binary : jsstring) : option jsstring :=
  if forallb (fun c => c <=? 255) binary then Some (b64_groups binary)
  else None.

(** [s.replace(/x/g, y)] for single characters [x] and [y]. *)
Definition replace_all (x y : N) (s : jsstring) : jsstring :=
  List.map (fun c => if c =? x then y else c) s.

Definition kroki_svg : jsstring := lit "https://kroki.io/plantuml/svg/".

(** The loop [binary += String.fromCharCode(compressed[i])]. *)
Definition binary_of (compressed : list Byte.byte) : jsstring :=
  List.map Byte.to_N compressed.

Section DiagramUrl.

(** [new TextEncoder().encode(code)] *)
Variable encode : jsstring -> list Byte.byte.

(** [pako.deflate(data, { level: 9 })]; [None] when it throws. *)
Variable deflate : list Byte.byte -> option (list Byte.byte).

(** The body of the computed signal [diagramUrl], as a function of the
    value of [plantUmlCode]. *)
Definition toDiagramURL (code : jsstring) : jsstring :=
  if truthy code then
    match deflate (encode code) with
    | None => []
    | Some compressed =>
        match btoa (binary_of compressed) with
        | None => []
        | Some b64 =>
            kroki_svg ++ replace_all 47 95 (replace_all 43 45 b64)
        end
    end
  else [].

Definition diagramUrl (w : World) : jsstring := toDiagramURL (plantUmlCode w).

End DiagramUrl.

(** What a reader of the URL does with the part after the endpoint: the
    inverse of the URL-safe alphabet and the regrouping of sextets. *)
Definition b64url_index (c : N) : option N :=
  if (65 <=? c) && (c <=? 90) then Some (c - 65)
  else if (97 <=? c) && (c <=? 122) then Some (c - 71)
  else if (48 <=? c) && (c <=? 57) then Some (c + 4)
  else if c =? 45 then Some 62
  else if c =? 95 then Some 63
  else None.

Fixpoint b64url_decode (s : jsstring) : option (list N) :=
  match s with
  | [] => Some []
  | c1 :: c2 :: c3 :: c4 :: rest =>
      match b64url_index c1, b64url_index c2 with
      | Some x1, Some x2 =>
          let o1 := x1 * 4 + x2 / 16 in
          if c3 =? b64_pad then
            match rest with
            | [] => if c4 =? b64_pad then Some [o1] else None
            | _ :: _ => None
            end
          else
            match b64url_index c3 with
            | Some x3 =>
                let o2 := (x2 mod 16) * 16 + x3 / 4 in
                if c4 =? b64_pad then
                  match rest with
                  | [] => Some [o1; o2]
                  | _ :: _ => None
                  end
                else
                  match b64url_index c4, b64url_decode rest with
                  | Some x4, Some tl =>
                      Some (o1 :: o2 :: (x3 mod 4) * 64 + x4 :: tl)
                  | _, _ => None
                  end
            | None => None
            end
      | _, _ => None
      end
  | _ => None
  end.

(** The two substitutions of [diagramUrl], on one character. *)
Definition url_safe (c : N) : N :=
  let c' := if c =? 43 then 45 else c in
  if c' =? 47 then 95 else c'.

(** Character codes that fit in one octet. *)
Definition octets (bin : list N) : Prop := Forall (fun c => c <= 255) bin.

End Renderer.

Import Renderer.

(* ================================================================== *)
(** ** Sends and conversations *)
(* ================================================================== *)

Module Scenario.

(** The entry points that put a user message on a session and wait for
    the reply. *)
Inductive Send := StartConsultation | SendMessage | SendSddReply.

Definition run (e : Send) (reply : Outcome) : M unit :=
  match e with
  | StartConsultation => startConsultation reply
  | SendMessage => sendMessage reply
  | SendSddReply => sendSddReply reply
  end.

(** The history the entry point writes to. *)
Definition history (e : Send) (w : World) : list Message :=
  match e with
  | SendSddReply => sddMessages w
  | _ => messages w
  end.

Definition is_some {A} (x : option A) : bool :=
  match x with Some _ => true | None => false end.

(** The call gets as far as the request: there is something to send and a
    session to send it on (for [startConsultation], a credential to create
    the session with). *)
Definition sends (e : Send) (w : World) : bool :=
  match e with
  | StartConsultation => negb (nothing_to_send w) && is_some (ai w)
  | SendMessage => negb (nothing_to_send w) && is_some (chatInstance w)
  | SendSddReply =>
      negb (blank (sddReplyInput w)) && is_some (sddChatInstance w)
  end.

(** The user message built from what is in the input box. *)
Definition typed_message (e : Send) (w : World) : Message :=
  match e with
  | SendSddReply => plain_message user (sddReplyInput w)
  | _ => user_message (userInput w) (selectedImages w)
  end.

(** The text shown in place of the reply when the request rejects. *)
Definition fallback (e : Send) : jsstring :=
  match e with
  | StartConsultation => start_fallback
  | SendMessage => send_fallback
  | SendSddReply => sdd_fallback
  end.

(** The generation fails: the credential is missing, or the first request
    rejects, or the second one does. *)
Definition generation_fails (w : World) (prdReply umlReply : Outcome)
  : Prop :=
  ai w = None \/ prdReply = Rejects \/ umlReply = Rejects.

(** One exchange of a consultation in which every request succeeds: what
    the user typed and attached, and the text of the reply. *)
Record Turn := {
  typed : jsstring;
  attached : list ImageAttachment;
  answer : option jsstring
}.

(** The turn passes the guard of the chat entry points. *)
Definition sendable (t : Turn) : bool :=
  negb (blank (typed t) && Nat.eqb (List.length (attached t)) 0).

Fixpoint follow_up (turns : list Turn) : M unit :=
  match turns with
  | [] => ret tt
  | t :: rest =>
      compose (typed t) (attached t) ;;
      sendMessage (Resolves (answer t)) ;;
      follow_up rest
  end.

(** [startConsultation] for the first turn, [sendMessage] for the others. *)
Definition consultation (turns : list Turn) : M unit :=
  match turns with
  | [] => ret tt
  | t :: rest =>
      compose (typed t) (attached t) ;;
      startConsultation (Resolves (answer t)) ;;
      follow_up rest
  end.

(** The two messages a successful turn leaves in the history. *)
Definition exchange (t : Turn) : list Message :=
  [user_message (typed t) (attached t);
   plain_message model (or_else (answer t) [])].

(** Worlds and inputs to run the methods on. *)

(** The page after the user has submitted a key. *)
Definition keyed_world : World :=
  after (setApiKey (lit "user-key")) initial_world.

Definition screenshot : ImageAttachment :=
  {| mimeType := lit "image/png";
     data := lit "iVBORw0KGgo=";
     url := lit "data:image/png;base64,iVBORw0KGgo=" |}.

Definition two_turns : list Turn :=
  [ {| typed := lit "an expense tracker"; attached := [];
       answer := Some (lit "Who will use it?") |};
    {| typed := []; attached := [screenshot];
       answer := None |} ].

(** The page in the middle of a consultation, one exchange done. *)
Definition consulting_world : World :=
  after (consultation
           [ {| typed := lit "an expense tracker"; attached := [];
                answer := Some (lit "Who will use it?") |} ])
        keyed_world.

(** The same page with a text typed in the chat box. *)
Definition typing_world : World :=
  after (compose (lit "only me") []) consulting_world.

(** The SDD page with a key submitted, a PRD pasted in and an earlier design
    still on display. *)
Definition sdd_ready_world : World :=
  {| ai := ai keyed_world;
     targetPlatform := lit "Python";
     state := initial;
     activeTab := prd;
     generationStatus := [];
     messages := [];
     userInput := [];
     selectedImages := [];
     isChatLoading := false;
     chatInstance := None;
     prdContent := [];
     plantUmlCode := [];
     zoomLevel := 1%Q;
     pan := (0, 0)%Q;
     sddInput := lit "# PRD";
     sddMode := simplified;
     sddResult := lit "an earlier design";
     isSddGenerating := false;
     sddChatInstance := None;
     sddMessages := [plain_message model (lit "an earlier design")];
     sddReplyInput := [];
     alerts := [];
     requests := [] |}.

(** Three replies to a diagram request: tags with chatter around them, a
    tagged fence without tags, and bare text. *)
Definition noisy_reply : jsstring :=
  lit "Here it is: @startuml" ++ [10%N] ++ lit "A -> B" ++ [10%N]
    ++ lit "@enduml Anything else?".

Definition fenced_reply : jsstring :=
  lit "```PlantUML" ++ [10%N] ++ lit "A -> B" ++ [10%N] ++ lit "```"
    ++ [10%N].

Definition bare_reply : jsstring := lit "  A -> B " ++ [10%N].

(** A diagram source, and stand-ins for the two library calls of
    [diagramUrl] on it: the bytes of an ASCII text, and a codec that knows
    one zlib stream, that of the sample. *)
Definition sample_source : jsstring :=
  lit "@startuml" ++ [10%N] ++ lit "A -> B" ++ [10%N] ++ lit "@enduml".

Definition to_byte (c : N) : Byte.byte :=
  match Byte.of_N c with Some b => b | None => Byte.x3f end.

Definition ascii_bytes (s : jsstring) : list Byte.byte := List.map to_byte s.

Definition sample_stream : list Byte.byte :=
  List.map to_byte
    [120; 218; 115; 40; 46; 73; 44; 42; 41; 205; 205; 225; 114; 84; 208;
     181; 83; 112; 226; 114; 72; 205; 75; 1; 114; 1; 98; 250; 7; 196]%N.

Definition sample_deflate (b : list Byte.byte) : option (list Byte.byte) :=
  if list_eq_dec Byte.byte_eq_dec b (ascii_bytes sample_source)
  then Some sample_stream else None.

(** The chat box with three pictures attached. *)
Definition photo : ImageAttachment :=
  {| mimeType := lit "image/jpeg";
     data := lit "/9j/4AAQ";
     url := lit "data:image/jpeg;base64,/9j/4AAQ" |}.

Definition sketch : ImageAttachment :=
  {| mimeType := lit "image/webp";
     data := lit "UklGRg==";
     url := lit "data:image/webp;base64,UklGRg==" |}.

Definition three_pictures_world : World :=
  after (compose [] [screenshot; photo; sketch]) initial_world.

(** The same page when no key was ever submitted. *)
Definition sdd_unkeyed_world : World := set_ai None sdd_ready_world.

(** The fresh page with a first idea typed in, no key submitted. *)
Definition unkeyed_idea_world : World :=
  after (compose (lit "an expense tracker") []) initial_world.

End Scenario.

Import Scenario.

(* ================================================================== *)
(** ** Shapes of a reply *)
(* ================================================================== *)

Module Shape.

(** No occurrence of [p] starts inside [a]: in [a ++ p] the word [p] is
    found at the end only. *)
Definition first_after (a p : jsstring) : Prop :=
  forall x y, a ++ p = x ++ p ++ y -> y = [].

(** The reply holds an opening tag with a closing tag somewhere after it. *)
Definition has_diagram (reply : jsstring) : Prop :=
  exists pre mid post, reply = pre ++ startuml ++ mid ++ enduml ++ post.

Definition all_ws (s : jsstring) : Prop := forallb is_ws s = true.

(** The word "plantuml" in any mix of upper and lower case. *)
Definition plantuml_tag (tag : jsstring) : Prop :=
  List.length tag = 8 /\ starts_with same_ci (lit "plantuml") tag = true.

Definition opens_with_fence (s : jsstring) : Prop :=
  exists rest, s = fence ++ rest.

Definition closes_with_fence (s : jsstring) : Prop :=
  exists before w, all_ws w /\ s = before ++ fence ++ w.

End Shape.

Import Shape.

(* ================================================================== *)
(** ** Keyboard handlers, events and calls *)
(* ================================================================== *)

Module Keyboard.

(** [a === b] on strings. *)
Fixpoint str_eqb (a b : jsstring) : bool :=
  match a, b with
  | [], [] => true
  | x :: a', y :: b' => N.eqb x y && str_eqb a' b'
  | _, _ => false
  end.

Definition is_generating (s : AppState) : bool :=
  match s with generating => true | _ => false end.

(** What the handlers read of a [KeyboardEvent]. *)
Record KeyboardEvent := {
  key : jsstring;
  shiftKey : bool
}.

(** A method started without [await]: its promise is dropped, so a
    rejection does not reach the caller. *)
Definition unawaited (c : M unit) : M unit := try_catch c (fun _ => ret tt).

(** [handleEnter(event)]; the result tells whether [preventDefault] was
    called. *)
Definition handleEnter (event : KeyboardEvent) (reply : Outcome) : M bool :=
  w <- get ;;
  if str_eqb (key event) (lit "Enter") && negb (shiftKey event)
     && negb (isChatLoading w) && negb (is_generating (state w))
  then
    unawaited
      (match state w with
       | initial => startConsultation reply
       | _ => sendMessage reply
       end) ;;
    ret true
  else ret false.

(** [handleSddEnter(event)] *)
Definition handleSddEnter (event : KeyboardEvent) (reply : Outcome)
  : M bool :=
  w <- get ;;
  if str_eqb (key event) (lit "Enter") && negb (shiftKey event)
     && negb (isSddGenerating w)
  then unawaited (sendSddReply reply) ;; ret true
  else ret false.

(** Assignments of the two-way bindings of the SDD page. *)
Definition set_sddInput (v : jsstring) (w : World) : World :=
  {| ai := ai w; targetPlatform := targetPlatform w; state := state w;
     activeTab := activeTab w; generationStatus := generationStatus w;
     messages := messages w; userInput := userInput w;
     selectedImages := selectedImages w; isChatLoading := isChatLoading w;
     chatInstance := chatInstance w; prdContent := prdContent w;
     plantUmlCode := plantUmlCode w; zoomLevel := zoomLevel w; pan := pan w;
     sddInput := v; sddMode := sddMode w; sddResult := sddResult w;
     isSddGenerating := isSddGenerating w;
     sddChatInstance := sddChatInstance w; sddMessages := sddMessages w;
     sddReplyInput := sddReplyInput w; alerts := alerts w;
     requests := requests w |}.

Definition set_sddMode (v : SddMode) (w : World) : World :=
  {| ai := ai w; targetPlatform := targetPlatform w; state := state w;
     activeTab := activeTab w; generationStatus := generationStatus w;
     messages := messages w; userInput := userInput w;
     selectedImages := selectedImages w; isChatLoading := isChatLoading w;
     chatInstance := chatInstance w; prdContent := prdContent w;
     plantUmlCode := plantUmlCode w; zoomLevel := zoomLevel w; pan := pan w;
     sddInput := sddInput w; sddMode := v; sddResult := sddResult w;
     isSddGenerating := isSddGenerating w;
     sddChatInstance := sddChatInstance w; sddMessages := sddMessages w;
     sddReplyInput := sddReplyInput w; alerts := alerts w;
     requests := requests w |}.

(** What can happen on the page, one handler at a time.  The outcome of
    each request the handler makes comes with the event. *)
Inductive Event :=
| TypeChat (typed : jsstring) (attached : list ImageAttachment)
| PressEnter (event : KeyboardEvent) (reply : Outcome)
| ClickStart (reply : Outcome)
| ClickSend (reply : Outcome)
| ClickRemove (index : Z)
| ClickGenerate (prdReply umlReply : Outcome)
| ClickReset
| TypeSddInput (typed : jsstring)
| PickSddMode (mode : SddMode)
| ClickGenerateSdd (reply : Outcome)
| TypeSddReply (typed : jsstring)
| PressSddEnter (event : KeyboardEvent) (reply : Outcome)
| ClickSddSend (reply : Outcome).

Definition handle (e : Event) : M unit :=
  match e with
  | TypeChat typed attached => compose typed attached
  | PressEnter event reply => handleEnter event reply ;; ret tt
  | ClickStart reply => startConsultation reply
  | ClickSend reply => sendMessage reply
  | ClickRemove index => removeImage index
  | ClickGenerate prdReply umlReply => finishAndGenerate prdReply umlReply
  | ClickReset => reset
  | TypeSddInput typed => modify (set_sddInput typed)
  | PickSddMode mode => modify (set_sddMode mode)
  | ClickGenerateSdd reply => generateSdd reply
  | TypeSddReply typed => modify (set_sddReplyInput typed)
  | PressSddEnter event reply => handleSddEnter event reply ;; ret tt
  | ClickSddSend reply => sendSddReply reply
  end.

(** Handlers run one after the other; a handler that throws does not stop
    the page. *)
Definition run_events (events : list Event) (w : World) : World :=
  fold_left (fun w' e => after (handle e) w') events w.

(** A history made of whole exchanges: a user message, then a message of
    the model, and so on. *)
Fixpoint well_paired (ms : list Message) : bool :=
  match ms with
  | [] => true
  | u :: m :: rest =>
      match role u, role m with
      | user, model => well_paired rest
      | _, _ => false
      end
  | [_] => false
  end.

(** The SDD history: whole exchanges, after the opening message of the
    model when the first request was answered. *)
Definition sdd_shaped (ms : list Message) : bool :=
  well_paired ms
  || match ms with
     | m :: rest =>
         match role m with model => well_paired rest | user => false end
     | [] => false
     end.

(** The asynchronous entry points, each with the outcomes of the requests
    it may await. *)
Inductive Call :=
| CallStart (reply : Outcome)
| CallSend (reply : Outcome)
| CallGenerateSdd (reply : Outcome)
| CallSddReply (reply : Outcome)
| CallGenerate (prdReply umlReply : Outcome).

Definition invoke (c : Call) : M unit :=
  match c with
  | CallStart reply => startConsultation reply
  | CallSend reply => sendMessage reply
  | CallGenerateSdd reply => generateSdd reply
  | CallSddReply reply => sendSddReply reply
  | CallGenerate prdReply umlReply => finishAndGenerate prdReply umlReply
  end.

(** The [await]s on the hosted model in the body of the entry point. *)
Definition awaits (c : Call) : nat :=
  match c with
  | CallGenerate _ _ => 2
  | _ => 1
  end.

(** The inline pictures of a request, as (mimeType, data). *)
Definition inline_data (c : Content) : list (jsstring * jsstring) :=
  match c with
  | Parts ps =>
      flat_map (fun p => match p with
                         | InlineData mime payload => [(mime, payload)]
                         | TextPart _ => []
                         end) ps
  | _ => []
  end.

(** The texts of a request. *)
Definition texts (c : Content) : list jsstring :=
  match c with
  | Text t => [t]
  | Parts ps =>
      flat_map (fun p => match p with
                         | TextPart t => [t]
                         | InlineData _ _ => []
                         end) ps
  | _ => []
  end.

(** A run of replies on the SDD chat: what the user typed, and how the
    request settled. *)
Record SddTurn := {
  sdd_typed : jsstring;
  sdd_outcome : Outcome
}.

Fixpoint sdd_replies (turns : list SddTurn) : M unit :=
  match turns with
  | [] => ret tt
  | t :: rest =>
      modify (set_sddReplyInput (sdd_typed t)) ;;
      sendSddReply (sdd_outcome t) ;;
      sdd_replies rest
  end.

(** The text offered for download after such a run: the last answered
    reply, cleaned. *)
Definition last_answered (before : jsstring) (turns : list SddTurn)
  : jsstring :=
  fold_left
    (fun acc t =>
       match sdd_outcome t with
       | Resolves x => cleanMarkdown (or_else x [])
       | Rejects => acc
       end) turns before.

(** Neither the first nor the last character is white space. *)
Definition trimmed (s : jsstring) : Prop :=
  (forall c r, s = c :: r -> is_ws c = false)
  /\ (forall c r, s = r ++ [c] -> is_ws c = false).

(** The word "markdown" in any mix of upper and lower case. *)
Definition markdown_tag (tag : jsstring) : Prop :=
  List.length tag = 8 /\ starts_with same_ci (lit "markdown") tag = true.

(** The page between two handlers, once a key was submitted: nothing in
    flight, both histories whole, and an empty consultation in the initial
    phase. *)
Definition at_rest (w : World) : Prop :=
  ai w <> None
  /\ isChatLoading w = false
  /\ isSddGenerating w = false
  /\ state w <> generating
  /\ well_paired (messages w) = true
  /\ sdd_shaped (sddMessages w) = true
  /\ (state w = initial -> messages w = [] /\ chatInstance w = None).

(** The two sessions the service can create. *)
Definition consultant_chat : Chat :=
  {| systemInstruction := CONSULTANT_INSTRUCTION;
     temperature := (7 # 10)%Q |}.

Definition architect_chat : Chat :=
  {| systemInstruction := ARCHITECT_INSTRUCTION;
     temperature := (5 # 10)%Q |}.

Definition is_consultant (c : Chat) : bool :=
  match systemInstruction c with
  | CONSULTANT_INSTRUCTION => true
  | ARCHITECT_INSTRUCTION => false
  end.

(** A request that went where it belongs: pictures to the consultant, the
    SDD prompt to the architect, the two generation prompts outside any
    chat session, and plain text to either session. *)
Definition well_addressed (r : Request) : bool :=
  match r with
  | ChatSend c (Parts _) => is_consultant c
  | ChatSend c (SddInitialPrompt _ _) => negb (is_consultant c)
  | ChatSend _ (Text _) => true
  | ChatSend _ _ => false
  | GenerateContent (PrdPrompt _ _) => true
  | GenerateContent (PlantUmlPrompt _ _) => true
  | GenerateContent _ => false
  end.

(** The consultation holds a consultant session or none, the SDD page an
    architect session or none, and every request so far went where it
    belongs. *)
Definition personas_apart (w : World) : Prop :=
  (forall c, chatInstance w = Some c -> c = consultant_chat)
  /\ (forall c, sddChatInstance w = Some c -> c = architect_chat)
  /\ forallb well_addressed (requests w) = true.

End Keyboard.

Import Keyboard.

(* ================================================================== *)
(** ** The API key form *)
(* ================================================================== *)

Module Account.

(** The component with the two signals of the key form. *)
Record Page := {
  world : World;
  apiKey : jsstring;
  isApiKeySet : bool
}.

(** [submitApiKey()] *)
Definition submitApiKey (p : Page) : Page :=
  if truthy (trim (apiKey p)) then
    {| world := after (setApiKey (trim (apiKey p))) (world p);
       apiKey := apiKey p;
       isApiKeySet := true |}
  else p.

(** [clearApiKey()] *)
Definition clearApiKey (p : Page) : Page :=
  {| world := world p; apiKey := []; isApiKeySet := false |}.

(** The page as it loads. *)
Definition initial_page : Page :=
  {| world := initial_world; apiKey := []; isApiKeySet := false |}.

End Account.

Import Account.

(* ================================================================== *)
(** ** Picking and pasting pictures *)
(* ================================================================== *)

Module Attachments.

Local Open Scope N_scope.

(** A [File]: its [type], and what [readAsDataURL] reads from it ([None]
    when reading fails, in which case [onload] never fires). *)
Record File := {
  file_type : jsstring;
  file_read : option jsstring
}.

(** [s.split(',')], for the separator [sep]. *)
Fixpoint split_on (sep : N) (s : jsstring) : list jsstring :=
  match s with
  | [] => [[]]
  | c :: s' =>
      if c =? sep then [] :: split_on sep s'
      else match split_on sep s' with
           | field :: fields => (c :: field) :: fields
           | [] => [[c]]
           end
  end.

(** [url.split(',')[1]].  A data URL has a comma, so the field exists; the
    empty default stands where a string without comma gives [undefined]. *)
Definition base64_of (url : jsstring) : jsstring :=
  nth 1 (split_on 44 url) [].

(** The attachment built by [reader.onload]. *)
Definition attachment (f : File) (url : jsstring) : ImageAttachment :=
  {| mimeType := file_type f; data := base64_of url; url := url |}.

(** [reader.onload] for the file [f], fired with the result [url]. *)
Definition onload (read : File * jsstring) : M unit :=
  modify (fun w =>
    set_selectedImages
      (selectedImages w ++ [attachment (fst read) (snd read)]) w).

(** [file.type.startsWith('image/')] *)
Definition is_image (f : File) : bool :=
  starts_with same (lit "image/") (file_type f).

(** [processFileArray(files)]: the reads it starts that will fire [onload],
    each with its result, in the order of the files. *)
Definition processFileArray (files : list File)
  : list (File * jsstring) :=
  flat_map
    (fun f =>
       if is_image f then
         match file_read f with
         | Some url => [(f, url)]
         | None => []
         end
       else [])
    files.

(** [processFiles(fileList)] *)
Definition processFiles (fileList : list File) : list (File * jsstring) :=
  processFileArray fileList.

(** The callbacks fire one at a time, in the order the reads complete. *)
Fixpoint fire (completed : list (File * jsstring)) : M unit :=
  match completed with
  | [] => ret tt
  | r :: rest => onload r ;; fire rest
  end.

(** [s.indexOf(p) !== -1] *)
Fixpoint contains (p s : jsstring) : bool :=
  starts_with same p s
  || match s with
     | [] => false
     | _ :: s' => contains p s'
     end.

(** An entry of [clipboardData.items]: its [type] and what [getAsFile()]
    returns. *)
Record ClipboardItem := {
  item_type : jsstring;
  getAsFile : option File
}.

(** The loop of [handlePaste] that collects the files. *)
Definition pasted_files (items : list ClipboardItem) : list File :=
  flat_map
    (fun it =>
       if contains (lit "image") (item_type it) then
         match getAsFile it with
         | Some f => [f]
         | None => []
         end
       else [])
    items.

(** [handlePaste(event)], for an event whose [clipboardData] is [data]
    ([None] when it has none): whether [preventDefault] was called, and the
    reads started. *)
Definition handlePaste (data : option (list ClipboardItem))
  : bool * list (File * jsstring) :=
  match data with
  | None => (false, [])
  | Some items =>
      let files := pasted_files items in
      if Nat.ltb 0 (List.length files) then (true, processFileArray files)
      else (false, [])
  end.

(** [onImageSelected(event)], for an input whose [files] is [picked]. *)
Definition onImageSelected (picked : option (list File))
  : list (File * jsstring) :=
  match picked with
  | Some (f :: fs) => processFiles (f :: fs)
  | _ => []
  end.

End Attachments.

Import Attachments.

(* ================================================================== *)
(** ** Saving the diagram *)
(* ================================================================== *)

Module Download.

(** [s.replace(pattern, replacement)] with a string pattern: the first
    occurrence only.  (No replacement used here holds a [$].) *)
Fixpoint replace_first (pattern replacement s : jsstring) : jsstring :=
  if starts_with same pattern s
  then replacement ++ skipn (List.length pattern) s
  else match s with
       | [] => []
       | c :: s' => c :: replace_first pattern replacement s'
       end.

(** What [downloadDiagram] ends up doing. *)
Inductive Saved :=
| NothingToSave
| SavedPng (fetched : jsstring)
| OpenedTab (address : jsstring).

Definition kroki_png : jsstring := lit "https://kroki.io/plantuml/png/".

Section DownloadDiagram.

Variable encode : jsstring -> list Byte.byte.
Variable deflate : list Byte.byte -> option (list Byte.byte).

(** [async downloadDiagram()]; [fetched] tells whether [fetch] and
    [resp.blob()] succeed. *)
Definition downloadDiagram (fetched : bool) (w : World) : Saved :=
  let svgUrl := diagramUrl encode deflate w in
  if truthy svgUrl then
    let pngUrl := replace_first (lit "/svg/") (lit "/png/") svgUrl in
    if fetched then SavedPng pngUrl else OpenedTab pngUrl
  else NothingToSave.

End DownloadDiagram.

End Download.

Import Download.

(* ================================================================== *)
(** ** More sample inputs *)
(* ================================================================== *)

Module Samples.

Definition enter : KeyboardEvent := {| key := lit "Enter"; shiftKey := false |}.

Definition shift_enter : KeyboardEvent :=
  {| key := lit "Enter"; shiftKey := true |}.

(** A session at the keyboard: an idea, a failed follow-up, a generation
    that fails, one that succeeds, then a reset and a new idea. *)
Definition busy_afternoon : list Event :=
  [ TypeChat (lit "an expense tracker") [];
    PressEnter enter (Resolves (Some (lit "Who will use it?")));
    TypeChat (lit "only me") [screenshot];
    PressEnter shift_enter Rejects;
    PressEnter enter Rejects;
    ClickGenerate (Resolves (Some (lit "# PRD"))) Rejects;
    ClickGenerate (Resolves (Some (lit "# PRD"))) (Resolves None);
    ClickReset;
    TypeChat (lit "a reading list") [];
    ClickStart (Resolves None);
    TypeSddInput (lit "# PRD");
    ClickGenerateSdd (Resolves (Some (lit "## Design")));
    TypeSddReply (lit "use SQLite");
    PressSddEnter enter Rejects ].

Definition png_file : File :=
  {| file_type := lit "image/png";
     file_read := Some (lit "data:image/png;base64,iVBORw0KGgo=") |}.

Definition jpeg_file : File :=
  {| file_type := lit "image/jpeg";
     file_read := Some (lit "data:image/jpeg;base64,/9j/4AAQ") |}.

Definition text_file : File :=
  {| file_type := lit "text/plain";
     file_read := Some (lit "data:text/plain;base64,aGk=") |}.

Definition two_replies : list SddTurn :=
  [ {| sdd_typed := lit "use SQLite";
       sdd_outcome := Resolves (Some (lit "```markdown" ++ [10%N]
                                        ++ lit "## Design v2" ++ [10%N]
                                        ++ lit "```")) |};
    {| sdd_typed := lit "add auth"; sdd_outcome := Rejects |} ].

(** The SDD page after a first design was generated. *)
Definition sdd_chat_world : World :=
  after (generateSdd (Resolves (Some (lit "## Design")))) sdd_ready_world.

(** A page with a diagram generated. *)
Definition finished_world : World :=
  after (finishAndGenerate (Resolves (Some (lit "# PRD")))
           (Resolves (Some sample_source)))
        consulting_world.

(** The consultation page with a picture attached and nothing typed. *)
Definition picture_world : World :=
  after (compose [] [screenshot]) consulting_world.

(** A page with artifacts on display and a half-typed message. *)
Definition stale_world : World :=
  after (compose (lit "one more thing") [photo]) finished_world.

(** The fresh page of a session with a key: a caption typed and two
    pictures attached, nothing sent yet. *)
Definition captioned_world : World :=
  after (compose (lit "like this one") [screenshot; photo]) keyed_world.

(** A consultation that ends on the results page with a message still in
    the input box: one exchange, a draft typed, then the documents are
    generated. *)
Definition abandoned_draft : list Event :=
  [ TypeChat (lit "an expense tracker") [];
    ClickStart (Resolves (Some (lit "Who will use it?")));
    TypeChat (lit "one more thing") [];
    ClickGenerate (Resolves (Some (lit "# PRD")))
      (Resolves (Some sample_source)) ].

Definition draft_world : World := run_events abandoned_draft keyed_world.

(** Nothing of an earlier consultation shows: every field of the
    consultation flow (the fields the component declares from "Consultant
    State" down to the zoom and pan of the diagram) has the value it has on
    the freshly loaded page. *)
Definition fresh_consultation (w : World) : Prop :=
  state w = state initial_world
  /\ activeTab w = activeTab initial_world
  /\ generationStatus w = generationStatus initial_world
  /\ messages w = messages initial_world
  /\ userInput w = userInput initial_world
  /\ selectedImages w = selectedImages initial_world
  /\ isChatLoading w = isChatLoading initial_world
  /\ chatInstance w = chatInstance initial_world
  /\ prdContent w = prdContent initial_world
  /\ plantUmlCode w = plantUmlCode initial_world
  /\ zoomLevel w = zoomLevel initial_world
  /\ pan w = pan initial_world.

End Samples.

Import Samples.

(* ================================================================== *)
(** ** Running a method *)
(* ================================================================== *)

(** Unfolds a method down to the monad's operations. *)
Ltac unfold_prog :=
  unfold after, settles, startConsultation, sendMessage, finishAndGenerate,
    generateSdd, sendSddReply, reset, resetZoom, removeImage, compose,
    generatePRD, generatePlantUML, createChat, createSddChat,
    ensureInitialized, chat_sendMessage, generateContent, request,
    push_message, push_sddMessage, alert, setApiKey,
    try_finally, try_catch, bind, ret, throw, get, modify.

(* ------------------------------------------------------------------ *)
(** *** reset *)

(** The claim of C8 as it is written fails on the results page reached
    by [abandoned_draft]: after [reset] the message typed before the
    documents were generated is still in the input box, and the status line
    of the finished generation is still set, so the consultation flow is
    not as on a fresh page. *)
Lemma reset_leaves_draft :
  state draft_world = finished
  /\ userInput (after reset draft_world) = lit "one more thing"
  /\ generationStatus (after reset draft_world) = status_done
  /\ ~ fresh_consultation (after reset draft_world).
Proof.
  split; [reflexivity |]. split; [reflexivity |]. split; [reflexivity |].
  unfold fresh_consultation. intros (_ & _ & _ & _ & Hinput & _).
  vm_compute in Hinput. discriminate Hinput.
Qed.

(** C8, amended: from any page, the results page included, [reset] puts
    the wizard back in the [initial] phase and empties the message history,
    the PRD text, the diagram source, the chat instance and the pending
    attachments (zoom and pan go back to their defaults).  The diagram URL
    derived from the diagram source is empty again, the transcript has no
    line, there is no diagram to download, and [sendMessage] does nothing
    until a new consultation is started.  It never throws.  It leaves the
    text of the input box, the selected result tab and the status line as
    they were, and it touches nothing outside the consultation flow: the
    key, the target platform, the chat busy flag, the SDD page, the alerts
    and the requests. *)
Theorem reset_clears_consultation :
  forall (w : World),
    let w' := after reset w in
    settles reset w = inr tt
    /\ state w' = initial
    /\ messages w' = []
    /\ prdContent w' = []
    /\ plantUmlCode w' = []
    /\ chatInstance w' = None
    /\ selectedImages w' = []
    /\ zoomLevel w' = 1%Q /\ pan w' = (0, 0)%Q
    /\ (forall encode deflate, diagramUrl encode deflate w' = [])
    /\ transcript (messages w') = []
    /\ (forall encode deflate fetched,
          downloadDiagram encode deflate fetched w' = NothingToSave)
    /\ (forall o,
          settles (sendMessage o) w' = inr tt
          /\ after (sendMessage o) w' = w')
    /\ (ai w' = ai w /\ targetPlatform w' = targetPlatform w
        /\ activeTab w' = activeTab w
        /\ generationStatus w' = generationStatus w
        /\ userInput w' = userInput w
        /\ isChatLoading w' = isChatLoading w
        /\ sddInput w' = sddInput w /\ sddMode w' = sddMode w
        /\ sddResult w' = sddResult w
        /\ isSddGenerating w' = isSddGenerating w
        /\ sddChatInstance w' = sddChatInstance w
        /\ sddMessages w' = sddMessages w
        /\ sddReplyInput w' = sddReplyInput w
        /\ alerts w' = alerts w /\ requests w' = requests w).
Proof.
  intros w w'. subst w'. unfold_prog. cbn.
  repeat split; reflexivity.
Qed.

(* ------------------------------------------------------------------ *)
(** *** removeImage *)

Section Filter.

Variable A : Type.
Variable index : Z.

Let keep : A -> nat -> bool := fun _ i => negb (Z.of_nat i =? index)%Z.

(** Positions all past the index: nothing is dropped. *)
Lemma filter_from_past (l : list A) (k : nat) :
  (index < Z.of_nat k)%Z -> filter_from keep k l = l.
Proof.
  revert k. induction l as [| x l IH]; intros k Hk; cbn; [reflexivity |].
  unfold keep at 1.
  destruct (Z.eqb_spec (Z.of_nat k) index) as [E | _]; [lia |]. cbn.
  rewrite IH by lia. reflexivity.
Qed.

(** The index lies [n] positions ahead: that element alone is dropped. *)
Lemma filter_from_hit (l : list A) (k n : nat) :
  index = Z.of_nat (k + n) -> n < List.length l ->
  filter_from keep k l = firstn n l ++ skipn (S n) l.
Proof.
  revert k n. induction l as [| x l IH]; intros k n Hi Hn; cbn in Hn;
    [lia |].
  cbn [filter_from]. unfold keep at 1.
  destruct n as [| n].
  - replace (Z.of_nat k =? index)%Z with true
      by (symmetry; apply Z.eqb_eq; lia).
    cbn. apply filter_from_past. lia.
  - destruct (Z.eqb_spec (Z.of_nat k) index) as [E | _]; [lia |]. cbn.
    rewrite (IH (S k) n) by lia. reflexivity.
Qed.

(** The index is not a position of the list: nothing is dropped. *)
Lemma filter_from_miss (l : list A) (k : nat) :
  (Z.of_nat (k + List.length l) <= index)%Z -> filter_from keep k l = l.
Proof.
  revert k. induction l as [| x l IH]; intros k Hk; cbn in *;
    [reflexivity |].
  unfold keep at 1.
  destruct (Z.eqb_spec (Z.of_nat k) index) as [E | _]; [lia |]. cbn.
  rewrite IH by lia. reflexivity.
Qed.

End Filter.

(** C9: [removeImage(index)] drops exactly the attachment at position
    [index]: the attachments before it stay where they are, the ones after
    it move up by one place, each of them is the same record (mimeType,
    data, url) as before and their order is kept; the list is one shorter.
    An index that is no position of the list removes nothing. *)
Theorem removeImage_removes_position :
  forall (index : Z) (w : World),
    let imgs := selectedImages w in
    let imgs' := selectedImages (after (removeImage index) w) in
    let n := Z.to_nat index in
    ((0 <= index < Z.of_nat (List.length imgs))%Z ->
       imgs' = firstn n imgs ++ skipn (S n) imgs
       /\ S (List.length imgs') = List.length imgs
       /\ (forall j, j < n -> nth_error imgs' j = nth_error imgs j)
       /\ (forall j, n <= j -> nth_error imgs' j = nth_error imgs (S j)))
    /\ (~ (0 <= index < Z.of_nat (List.length imgs))%Z -> imgs' = imgs).
Proof.
  intros index w imgs imgs' n.
  assert (Himgs' : imgs' =
            filter_from (fun _ i => negb (Z.of_nat i =? index)%Z) 0 imgs)
    by reflexivity.
  split.
  - intros [Hlo Hhi].
    assert (Hn : n < List.length imgs) by (unfold n; lia).
    assert (E : imgs' = firstn n imgs ++ skipn (S n) imgs).
    { rewrite Himgs'. apply filter_from_hit; [unfold n; lia | exact Hn]. }
    split; [exact E |]. rewrite E. repeat split.
    + rewrite length_app, length_firstn, length_skipn. lia.
    + intros j Hj. rewrite nth_error_app1 by (rewrite length_firstn; lia).
      rewrite nth_error_firstn.
      destruct (Nat.ltb_spec j n); [reflexivity | lia].
    + intros j Hj.
      rewrite nth_error_app2 by (rewrite length_firstn; lia).
      rewrite length_firstn, nth_error_skipn.
      f_equal. lia.
  - intros Hout. rewrite Himgs'.
    destruct (Z_lt_le_dec index 0) as [Hneg | Hpos].
    + apply filter_from_past. lia.
    + apply filter_from_miss. lia.
Qed.

Lemma removeImage_removes_position_witness :
  selectedImages (after (removeImage 1) three_pictures_world)
  = [screenshot; sketch]
  /\ selectedImages (after (removeImage 3) three_pictures_world)
     = [screenshot; photo; sketch]
  /\ selectedImages (after (removeImage (-1)) three_pictures_world)
     = [screenshot; photo; sketch].
Proof.
  split; [| split].
  - apply (proj1 (removeImage_removes_position 1 three_pictures_world)).
    cbn. lia.
  - apply (proj2 (removeImage_removes_position 3 three_pictures_world)).
    cbn. lia.
  - apply (proj2 (removeImage_removes_position (-1) three_pictures_world)).
    cbn. lia.
Defined.

(* ------------------------------------------------------------------ *)
(** *** The credential *)

(** C6: while no credential has been supplied ([ai] is unset), each of
    [createChat], [createSddChat], [generatePRD] and [generatePlantUML]
    fails with the configuration error of [ensureInitialized], and does so
    before anything is sent: the request log, and in fact the whole world,
    is as it was. *)
Theorem no_credential_fails_fast :
  forall (w : World) (history platform : jsstring) (o : Outcome),
    ai w = None ->
    createChat w = (inl (ConfigurationError api_key_not_set), w)
    /\ createSddChat w = (inl (ConfigurationError api_key_not_set), w)
    /\ generatePRD history platform o w
       = (inl (ConfigurationError api_key_not_set), w)
    /\ generatePlantUML history platform o w
       = (inl (ConfigurationError api_key_not_set), w)
    /\ requests (after createChat w) = requests w
    /\ requests (after createSddChat w) = requests w
    /\ requests (after (generatePRD history platform o) w) = requests w
    /\ requests (after (generatePlantUML history platform o) w) = requests w.
Proof.
  intros w history platform o Hai.
  unfold_prog. rewrite Hai. cbn. repeat split; reflexivity.
Qed.

Lemma no_credential_fails_fast_witness :
  createChat initial_world
    = (inl (ConfigurationError api_key_not_set), initial_world)
  /\ requests (after (generatePRD (lit "User: hi") (lit "Python") Rejects)
                 initial_world) = [].
Proof.
  pose proof (@no_credential_fails_fast initial_world (lit "User: hi")
                (lit "Python") Rejects eq_refl) as H.
  split; [apply H |]. apply H.
Defined.

(** With a credential the same operations go through: a session is
    created, and a generation sends exactly one request. *)
Lemma credential_lets_through :
  forall (w : World) (k : ApiClient) (history platform : jsstring)
         (t : option jsstring),
    ai w = Some k ->
    (exists c, createChat w = (inr c, w))
    /\ (exists c, createSddChat w = (inr c, w))
    /\ requests (after (generatePRD history platform (Resolves t)) w)
       = requests w ++ [GenerateContent (PrdPrompt history platform)]
    /\ requests (after (generatePlantUML history platform (Resolves t)) w)
       = requests w ++ [GenerateContent (PlantUmlPrompt history platform)].
Proof.
  intros w k history platform t Hai.
  unfold_prog. rewrite Hai. cbn.
  repeat split; try (eexists; reflexivity); reflexivity.
Qed.

(* ------------------------------------------------------------------ *)
(** *** The chat sends *)

(** A send that is answered. *)
Lemma sendMessage_answered :
  forall (w : World) (c : Chat) (a : option jsstring),
    chatInstance w = Some c ->
    nothing_to_send w = false ->
    exists w1,
      sendMessage (Resolves a) w = (inr tt, w1)
      /\ messages w1
         = messages w ++ [user_message (userInput w) (selectedImages w);
                          plain_message model (or_else a [])]
      /\ chatInstance w1 = Some c
      /\ isChatLoading w1 = false.
Proof.
  intros w c a Hc Hg. unfold_prog. rewrite Hc, Hg. cbn.
  destruct (List.length (selectedImages w)); cbn;
    eexists; (split; [reflexivity |]); cbn; rewrite <- app_assoc;
    repeat split; assumption.
Qed.

Lemma startConsultation_answered :
  forall (w : World) (k : ApiClient) (a : option jsstring),
    ai w = Some k ->
    nothing_to_send w = false ->
    exists w1 c,
      startConsultation (Resolves a) w = (inr tt, w1)
      /\ messages w1
         = messages w ++ [user_message (userInput w) (selectedImages w);
                          plain_message model (or_else a [])]
      /\ chatInstance w1 = Some c
      /\ isChatLoading w1 = false.
Proof.
  intros w k a Hk Hg. unfold_prog. rewrite Hg. cbn. rewrite Hk. cbn.
  destruct (List.length (selectedImages w)); cbn;
    do 2 eexists; (split; [reflexivity |]); cbn; rewrite <- app_assoc;
    repeat split.
Qed.

(** Typing a sendable turn makes the guard pass. *)
Lemma compose_sendable :
  forall (t : Turn) (w : World),
    sendable t = true ->
    nothing_to_send (after (compose (typed t) (attached t)) w) = false.
Proof.
  intros t w Ht. unfold sendable in Ht. unfold nothing_to_send.
  cbn. apply negb_true_iff in Ht. exact Ht.
Qed.

Lemma follow_up_answered :
  forall (turns : list Turn) (w : World) (c : Chat),
    chatInstance w = Some c ->
    forallb sendable turns = true ->
    settles (follow_up turns) w = inr tt
    /\ messages (after (follow_up turns) w)
       = messages w ++ flat_map exchange turns.
Proof.
  induction turns as [| t rest IH]; intros w c Hc Hall.
  - cbn. rewrite app_nil_r. split; reflexivity.
  - cbn in Hall. apply andb_true_iff in Hall as [Ht Hrest].
    set (w0 := after (compose (typed t) (attached t)) w).
    destruct (@sendMessage_answered w0 c (answer t) Hc
                (compose_sendable t w Ht))
      as (w1 & Hrun & Hmsgs & Hc1 & _).
    assert (Hstep : follow_up (t :: rest) w = follow_up rest w1).
    { change (follow_up (t :: rest) w)
        with (match sendMessage (Resolves (answer t)) w0 with
              | (inr _, w') => follow_up rest w'
              | (inl e, w') => (inl e, w')
              end).
      rewrite Hrun. reflexivity. }
    unfold settles, after in *. rewrite Hstep.
    destruct (IH w1 c Hc1 Hrest) as [Hs Hm].
    split; [exact Hs |].
    rewrite Hm, Hmsgs. cbn. rewrite <- app_assoc. reflexivity.
Qed.

Lemma alternating_roles :
  forall (turns : list Turn),
    List.map role (flat_map exchange turns)
    = flat_map (fun _ => [user; model]) turns.
Proof.
  induction turns as [| t rest IH]; cbn; [reflexivity |].
  rewrite IH. reflexivity.
Qed.

Lemma length_exchanges :
  forall (turns : list Turn),
    List.length (flat_map exchange turns) = 2 * List.length turns.
Proof.
  induction turns as [| t rest IH]; cbn; [reflexivity |].
  cbn in IH. rewrite IH. lia.
Qed.

(** C2: a consultation of [n] turns, [startConsultation] first and
    [sendMessage] after it, every request answered, on a fresh history:
    the history holds the [n] exchanges in order, so its length is [2 * n]
    and its roles read user, model, user, model, ... *)
Theorem consultation_history_alternates :
  forall (turns : list Turn) (w : World) (k : ApiClient),
    ai w = Some k ->
    messages w = [] ->
    forallb sendable turns = true ->
    let w' := after (consultation turns) w in
    settles (consultation turns) w = inr tt
    /\ messages w' = flat_map exchange turns
    /\ List.length (messages w') = 2 * List.length turns
    /\ List.map role (messages w')
       = flat_map (fun _ => [user; model]) turns.
Proof.
  intros turns w k Hk Hfresh Hall w'.
  assert (H : settles (consultation turns) w = inr tt
              /\ messages w' = flat_map exchange turns).
  { subst w'. destruct turns as [| t rest].
    - cbn. split; [reflexivity | exact Hfresh].
    - cbn in Hall. apply andb_true_iff in Hall as [Ht Hrest].
      set (w0 := after (compose (typed t) (attached t)) w).
      destruct (@startConsultation_answered w0 k (answer t) Hk
                  (compose_sendable t w Ht))
        as (w1 & c & Hrun & Hmsgs & Hc1 & _).
      assert (Hstep : consultation (t :: rest) w = follow_up rest w1).
      { change (consultation (t :: rest) w)
          with (match startConsultation (Resolves (answer t)) w0 with
                | (inr _, w') => follow_up rest w'
                | (inl e, w') => (inl e, w')
                end).
        rewrite Hrun. reflexivity. }
      unfold settles, after in *. rewrite Hstep.
      destruct (@follow_up_answered rest w1 c Hc1 Hrest) as [Hs Hm].
      unfold settles, after in *.
      split; [exact Hs |].
      rewrite Hm, Hmsgs. cbn. rewrite Hfresh. reflexivity. }
  destruct H as [Hs Hm]. rewrite Hm.
  repeat split; auto using length_exchanges, alternating_roles.
Qed.

Lemma consultation_history_alternates_witness :
  settles (consultation two_turns) keyed_world = inr tt
  /\ messages (after (consultation two_turns) keyed_world)
     = flat_map exchange two_turns
  /\ List.length (messages (after (consultation two_turns) keyed_world)) = 4
  /\ List.map role (messages (after (consultation two_turns) keyed_world))
     = [user; model; user; model].
Proof.
  exact (@consultation_history_alternates two_turns keyed_world
           {| client_key := lit "user-key" |} eq_refl eq_refl eq_refl).
Defined.

(** C3: a send whose request rejects appends the user message and then one
    fallback message of the model, nothing else: the history grows by
    exactly two, every message that was there before is still there at
    its place, and the method itself does not throw.  This holds for
    [startConsultation], [sendMessage] and [sendSddReply]. *)
Theorem failed_send_appends_user_and_fallback :
  forall (e : Send) (w : World),
    sends e w = true ->
    let w' := after (run e Rejects) w in
    settles (run e Rejects) w = inr tt
    /\ history e w'
       = history e w ++ [typed_message e w; plain_message model (fallback e)]
    /\ List.length (history e w') = List.length (history e w) + 2
    /\ (forall i m, nth_error (history e w) i = Some m ->
                    nth_error (history e w') i = Some m).
Proof.
  intros e w Hsends w'.
  assert (H : settles (run e Rejects) w = inr tt
              /\ history e w'
                 = history e w
                   ++ [typed_message e w; plain_message model (fallback e)]).
  { subst w'. destruct e; cbn in Hsends;
      apply andb_true_iff in Hsends as [Hg Hs];
      apply negb_true_iff in Hg.
    - destruct (ai w) as [k |] eqn:Hk; [| discriminate].
      cbn [run history typed_message fallback].
      unfold_prog. rewrite Hg. cbn. rewrite Hk. cbn.
      destruct (List.length (selectedImages w)); cbn;
        rewrite <- app_assoc; split; reflexivity.
    - destruct (chatInstance w) as [c |] eqn:Hc; [| discriminate].
      cbn [run history typed_message fallback].
      unfold_prog. rewrite Hc, Hg. cbn.
      destruct (List.length (selectedImages w)); cbn;
        rewrite <- app_assoc; split; reflexivity.
    - destruct (sddChatInstance w) as [c |] eqn:Hc; [| discriminate].
      cbn [run history typed_message fallback].
      unfold_prog. rewrite Hc, Hg. cbn.
      rewrite <- app_assoc; split; reflexivity. }
  destruct H as [Hs Hh]. rewrite Hh.
  split; [exact Hs |]. split; [reflexivity |]. split.
  - rewrite length_app. reflexivity.
  - intros i m Hi. rewrite nth_error_app1; [exact Hi |].
    apply nth_error_Some. rewrite Hi. discriminate.
Qed.

Lemma failed_send_appends_user_and_fallback_witness :
  settles (run SendMessage Rejects) typing_world = inr tt
  /\ messages (after (run SendMessage Rejects) typing_world)
     = messages typing_world
       ++ [user_message (lit "only me") [];
           plain_message model send_fallback]
  /\ List.length (messages (after (run SendMessage Rejects) typing_world))
     = 2 + 2
  /\ (forall i m,
        nth_error (messages typing_world) i = Some m ->
        nth_error (messages (after (run SendMessage Rejects) typing_world)) i
        = Some m).
Proof.
  exact (@failed_send_appends_user_and_fallback SendMessage typing_world
           eq_refl).
Defined.

(* ------------------------------------------------------------------ *)
(** *** generateSdd *)

(** With a key, a first request of [generateSdd] that rejects leaves the
    SDD history empty (it was emptied before the request and nothing is
    appended, no user message and no fallback) and [sddResult] as it was;
    the one visible effect is the alert, and [isSddGenerating] is false
    again. *)
Lemma generateSdd_failure_appends_nothing :
  forall (w : World) (k : ApiClient),
    ai w = Some k ->
    blank (sddInput w) = false ->
    let w' := after (generateSdd Rejects) w in
    settles (generateSdd Rejects) w = inr tt
    /\ sddMessages w' = []
    /\ sddResult w' = sddResult w
    /\ alerts w' = alerts w ++ [sdd_start_failed]
    /\ isSddGenerating w' = false
    /\ requests w'
       = requests w
         ++ [ChatSend {| systemInstruction := ARCHITECT_INSTRUCTION;
                         temperature := (5 # 10)%Q |}
               (SddInitialPrompt (sddInput w) (sddMode w))].
Proof.
  intros w k Hk Hin w'. subst w'.
  unfold_prog. rewrite Hin. cbn. rewrite Hk. cbn.
  repeat split; reflexivity.
Qed.

Lemma generateSdd_failure_appends_nothing_sample :
  settles (generateSdd Rejects) sdd_ready_world = inr tt
  /\ sddMessages (after (generateSdd Rejects) sdd_ready_world) = []
  /\ sddResult (after (generateSdd Rejects) sdd_ready_world)
     = lit "an earlier design"
  /\ alerts (after (generateSdd Rejects) sdd_ready_world)
     = [] ++ [sdd_start_failed]
  /\ isSddGenerating (after (generateSdd Rejects) sdd_ready_world) = false
  /\ requests (after (generateSdd Rejects) sdd_ready_world)
     = [] ++ [ChatSend {| systemInstruction := ARCHITECT_INSTRUCTION;
                          temperature := (5 # 10)%Q |}
                (SddInitialPrompt (lit "# PRD") simplified)].
Proof.
  exact (@generateSdd_failure_appends_nothing sdd_ready_world
           {| client_key := lit "user-key" |} eq_refl eq_refl).
Qed.



(* ------------------------------------------------------------------ *)
(** *** finishAndGenerate *)

(** The second request rejects after the first was answered: the PRD made
    from that answer is in [prdContent]. *)
Lemma finishAndGenerate_second_rejects :
  forall (w : World) (k : ApiClient) (t : option jsstring),
    ai w = Some k ->
    let w' := after (finishAndGenerate (Resolves t) Rejects) w in
    state w' = consulting
    /\ prdContent w'
       = cleanMarkdown (or_else t (lit "# Error Generating PRD"))
    /\ plantUmlCode w' = plantUmlCode w
    /\ alerts w' = alerts w ++ [generation_failed].
Proof.
  intros w k t Hk w'. subst w'.
  unfold_prog. cbn. repeat (rewrite Hk; cbn).
  repeat split; reflexivity.
Qed.

(** C1 as worded does not hold: a PRD request answered with "# PRD"
    followed by a rejected diagram request leaves "# PRD" in [prdContent],
    which was empty before; the PRD artifact stays set after the failure. *)
Lemma finishAndGenerate_leaves_prd_set :
  prdContent consulting_world = []
  /\ generation_fails consulting_world (Resolves (Some (lit "# PRD"))) Rejects
  /\ state (after (finishAndGenerate (Resolves (Some (lit "# PRD"))) Rejects)
              consulting_world) = consulting
  /\ prdContent
       (after (finishAndGenerate (Resolves (Some (lit "# PRD"))) Rejects)
          consulting_world) = lit "# PRD"
  /\ prdContent
       (after (finishAndGenerate (Resolves (Some (lit "# PRD"))) Rejects)
          consulting_world) <> [].
Proof.
  split; [reflexivity |]. split; [right; right; reflexivity |].
  split; [reflexivity |]. split; [reflexivity |].
  vm_compute. discriminate.
Qed.

(** C1, as the code has it: when the generation fails, [finishAndGenerate]
    does not throw, the phase is [consulting], the failure alert has been
    shown once, the diagram source is untouched, and the diagram request
    was not sent unless the PRD request had been answered.  The PRD text is
    untouched when the failure comes before the answer to the PRD request;
    when the diagram request is the one that rejects, [prdContent] holds
    the PRD made from the first answer. *)
Theorem finishAndGenerate_failure_reverts :
  forall (w : World) (prdReply umlReply : Outcome),
    generation_fails w prdReply umlReply ->
    let w' := after (finishAndGenerate prdReply umlReply) w in
    settles (finishAndGenerate prdReply umlReply) w = inr tt
    /\ state w' = consulting
    /\ alerts w' = alerts w ++ [generation_failed]
    /\ plantUmlCode w' = plantUmlCode w
    /\ (ai w = None \/ prdReply = Rejects -> prdContent w' = prdContent w)
    /\ (forall t, ai w <> None -> prdReply = Resolves t ->
          prdContent w'
          = cleanMarkdown (or_else t (lit "# Error Generating PRD")))
    /\ (ai w = None -> requests w' = requests w)
    /\ (ai w <> None -> prdReply = Rejects ->
          requests w'
          = requests w
            ++ [GenerateContent
                  (PrdPrompt (transcript (messages w)) (targetPlatform w))]).
Proof.
  intros w prdReply umlReply Hfail w'. subst w'.
  destruct (ai w) as [k |] eqn:Hk.
  - destruct prdReply as [| t].
    + unfold_prog. cbn. repeat (rewrite Hk; cbn).
      repeat split; try reflexivity; discriminate.
    + destruct umlReply as [| u].
      * unfold_prog. cbn. repeat (rewrite Hk; cbn).
        repeat split; try reflexivity; try discriminate.
        -- intros [H | H]; discriminate.
        -- intros t' _ Ht'. injection Ht' as <-. reflexivity.
      * destruct Hfail as [H | [H | H]]; congruence.
  - unfold_prog. cbn. repeat (rewrite Hk; cbn).
    repeat split; try reflexivity; try congruence.
Qed.

Lemma finishAndGenerate_failure_reverts_witness :
  settles (finishAndGenerate (Resolves (Some (lit "# PRD"))) Rejects)
    consulting_world = inr tt
  /\ state (after (finishAndGenerate (Resolves (Some (lit "# PRD"))) Rejects)
              consulting_world) = consulting.
Proof.
  pose proof (@finishAndGenerate_failure_reverts consulting_world
                (Resolves (Some (lit "# PRD"))) Rejects
                (or_intror (or_intror eq_refl))) as H.
  split; [apply H |]. apply H.
Defined.

(** When both requests are answered the phase is [finished] and both
    artifacts are set. *)
Lemma finishAndGenerate_success :
  forall (w : World) (k : ApiClient) (t u : option jsstring),
    ai w = Some k ->
    let w' := after (finishAndGenerate (Resolves t) (Resolves u)) w in
    state w' = finished
    /\ prdContent w'
       = cleanMarkdown (or_else t (lit "# Error Generating PRD"))
    /\ plantUmlCode w' = extractPlantUML (or_else u [])
    /\ alerts w' = alerts w.
Proof.
  intros w k t u Hk w'. subst w'.
  unfold_prog. cbn. repeat (rewrite Hk; cbn).
  repeat split; reflexivity.
Qed.

(* ------------------------------------------------------------------ *)
(** *** The busy flags *)

(** Once the session exists, the [finally] blocks do their work: from a
    page that is not busy, each entry point leaves its flag cleared however
    its request settles, and [finishAndGenerate] never settles in the
    [generating] phase. *)
Lemma busy_flag_cleared_with_credential :
  forall (w : World) (k : ApiClient) (o o' : Outcome),
    ai w = Some k ->
    isChatLoading w = false ->
    isSddGenerating w = false ->
    isChatLoading (after (startConsultation o) w) = false
    /\ isChatLoading (after (sendMessage o) w) = false
    /\ isSddGenerating (after (generateSdd o) w) = false
    /\ isSddGenerating (after (sendSddReply o) w) = false
    /\ state (after (finishAndGenerate o o') w) <> generating.
Proof.
  intros w k o o' Hk Hchat Hsdd.
  repeat split.
  - unfold_prog. destruct (nothing_to_send w); cbn; [exact Hchat |].
    rewrite Hk. cbn.
    destruct (List.length (selectedImages w)), o; reflexivity.
  - unfold_prog. destruct (chatInstance w); cbn; [| exact Hchat].
    destruct (nothing_to_send w); cbn; [exact Hchat |].
    destruct (List.length (selectedImages w)), o; reflexivity.
  - unfold_prog. destruct (blank (sddInput w)); cbn; [exact Hsdd |].
    rewrite Hk. cbn. destruct o; reflexivity.
  - unfold_prog. destruct (sddChatInstance w); cbn; [| exact Hsdd].
    destruct (blank (sddReplyInput w)); cbn; [exact Hsdd |].
    destruct o; reflexivity.
  - unfold_prog. cbn. repeat (rewrite Hk; cbn).
    destruct o; cbn; [discriminate |]. repeat (rewrite Hk; cbn).
    destruct o'; cbn; discriminate.
Qed.

(** C7 at the input where it fails: no key was submitted, a first idea is
    typed.  [startConsultation] sets [isChatLoading], then [createChat]
    throws outside the [try], so the method rejects with the flag still
    set (and the user message already in the history).  [generateSdd] has
    the same shape: [createSddChat] throws after [isSddGenerating] was
    set. *)
Theorem startConsultation_without_key_stays_busy :
  isChatLoading unkeyed_idea_world = false
  /\ settles (startConsultation Rejects) unkeyed_idea_world
     = inl (ConfigurationError api_key_not_set)
  /\ isChatLoading (after (startConsultation Rejects) unkeyed_idea_world)
     = true
  /\ state (after (startConsultation Rejects) unkeyed_idea_world)
     = consulting
  /\ messages (after (startConsultation Rejects) unkeyed_idea_world)
     = [user_message (lit "an expense tracker") []]
  /\ requests (after (startConsultation Rejects) unkeyed_idea_world) = []
  /\ isSddGenerating sdd_unkeyed_world = false
  /\ settles (generateSdd Rejects) sdd_unkeyed_world
     = inl (ConfigurationError api_key_not_set)
  /\ isSddGenerating (after (generateSdd Rejects) sdd_unkeyed_world) = true.
Proof.
  repeat split; reflexivity.
Qed.

(** The same for every page without a key and every way the request could
    have settled: the request is never reached. *)
Lemma entry_without_key_stays_busy :
  forall (w : World) (o : Outcome),
    ai w = None ->
    (nothing_to_send w = false ->
       settles (startConsultation o) w
       = inl (ConfigurationError api_key_not_set)
       /\ isChatLoading (after (startConsultation o) w) = true)
    /\ (blank (sddInput w) = false ->
          settles (generateSdd o) w
          = inl (ConfigurationError api_key_not_set)
          /\ isSddGenerating (after (generateSdd o) w) = true).
Proof.
  intros w o Hk. split; intros Hg.
  - unfold_prog. rewrite Hg. cbn. rewrite Hk. cbn. split; reflexivity.
  - unfold_prog. rewrite Hg. cbn. rewrite Hk. cbn. split; reflexivity.
Qed.

(* ------------------------------------------------------------------ *)
(** *** Literal prefixes *)

Section Prefix.

Lemma starts_with_same_app (p r : jsstring) :
  starts_with same p (p ++ r) = true.
Proof.
  induction p as [| a p IH]; cbn; [reflexivity |].
  unfold same at 1. rewrite N.eqb_refl. exact IH.
Qed.

Lemma starts_with_same_inv (p s : jsstring) :
  starts_with same p s = true -> s = p ++ skipn (List.length p) s.
Proof.
  revert s. induction p as [| a p IH]; intros s H; cbn; [reflexivity |].
  destruct s as [| c s]; cbn in H; [discriminate |].
  apply andb_true_iff in H as [Hc Hs].
  apply N.eqb_eq in Hc. subst c. f_equal. apply IH. exact Hs.
Qed.

(** A prefix test only looks at the first characters. *)
Lemma starts_with_app_l (eqc : N -> N -> bool) (p a b : jsstring) :
  List.length p <= List.length a ->
  starts_with eqc p (a ++ b) = starts_with eqc p a.
Proof.
  revert a. induction p as [| x p IH]; intros a Hlen; [reflexivity |].
  destruct a as [| c a]; cbn in Hlen; [lia |].
  cbn. rewrite IH by lia. reflexivity.
Qed.

(** A prefix test that fails on [a] fails on [a ++ h :: b] when no
    character of the pattern matches [h]. *)
Lemma starts_with_app_false (eqc : N -> N -> bool) (p a b : jsstring)
      (h : N) :
  (forall x, In x p -> eqc x h = false) ->
  starts_with eqc p a = false ->
  starts_with eqc p (a ++ h :: b) = false.
Proof.
  revert a. induction p as [| x p IH]; intros a Hh Ha; [discriminate |].
  destruct a as [| c a]; cbn.
  - rewrite (Hh x) by (left; reflexivity). reflexivity.
  - cbn in Ha. apply andb_false_iff in Ha as [Hc | Hs].
    + rewrite Hc. reflexivity.
    + rewrite IH; [apply andb_false_r | | exact Hs].
      intros y Hy. apply Hh. right. exact Hy.
Qed.

End Prefix.

(* ------------------------------------------------------------------ *)
(** *** The delimiter pair *)

Section Delimiters.

Lemma first_after_tail (c : N) (a p : jsstring) :
  first_after (c :: a) p -> first_after a p.
Proof.
  intros H x y E. apply (H (c :: x) y). cbn. rewrite E. reflexivity.
Qed.

(** With [p] found only at the end of [(c :: a) ++ p], the text does not
    start with [p]. *)
Lemma first_after_not_here (c : N) (a p r : jsstring) :
  first_after (c :: a) p ->
  starts_with same p ((c :: a) ++ p ++ r) = false.
Proof.
  intros H.
  destruct (starts_with same p ((c :: a) ++ p ++ r)) eqn:E;
    [| reflexivity].
  exfalso. rewrite app_assoc in E.
  rewrite starts_with_app_l in E
    by (rewrite length_app; apply Nat.le_add_l).
  apply starts_with_same_inv in E.
  specialize (H [] _ E).
  apply (f_equal (@List.length N)) in H.
  rewrite length_skipn, length_app in H.
  cbn [List.length] in H. lia.
Qed.

Lemma lazy_until_first (stop m r : jsstring) :
  first_after m stop -> lazy_until stop (m ++ stop ++ r) = Some m.
Proof.
  induction m as [| c m IH]; intros H.
  - cbn [app]. destruct (stop ++ r) eqn:E; cbn;
      rewrite <- ?E, starts_with_same_app; reflexivity.
  - cbn [lazy_until app].
    change (c :: m ++ stop ++ r) with ((c :: m) ++ stop ++ r).
    rewrite (first_after_not_here r H). cbn [app].
    rewrite IH by (eapply first_after_tail; exact H). reflexivity.
Qed.

Lemma lazy_until_inv (stop s m : jsstring) :
  lazy_until stop s = Some m -> exists r, s = m ++ stop ++ r.
Proof.
  revert m. induction s as [| c s IH]; intros m H.
  - cbn in H. destruct (starts_with same stop []) eqn:E; [| discriminate].
    injection H as <-. apply starts_with_same_inv in E.
    eexists. exact E.
  - cbn [lazy_until] in H.
    destruct (starts_with same stop (c :: s)) eqn:E.
    + injection H as <-. apply starts_with_same_inv in E.
      eexists. exact E.
    + destruct (lazy_until stop s) as [m' |] eqn:E'; [| discriminate].
      cbn in H. injection H as <-.
      destruct (IH m' eq_refl) as [r Hr].
      exists r. cbn. rewrite <- Hr. reflexivity.
Qed.

Lemma match_uml_first (pre mid post : jsstring) :
  first_after pre startuml ->
  first_after mid enduml ->
  match_uml (pre ++ startuml ++ mid ++ enduml ++ post) = Some mid.
Proof.
  intros Hpre Hmid. induction pre as [| c pre IH].
  - cbn [app].
    assert (E : match_uml (startuml ++ mid ++ enduml ++ post)
                = match lazy_until enduml (mid ++ enduml ++ post) with
                  | Some captured => Some captured
                  | None => match_uml (tl (startuml ++ mid ++ enduml ++ post))
                  end) by reflexivity.
    rewrite E, (lazy_until_first post Hmid). reflexivity.
  - cbn [match_uml app].
    change (c :: pre ++ startuml ++ mid ++ enduml ++ post)
      with ((c :: pre) ++ startuml ++ (mid ++ enduml ++ post)).
    rewrite (first_after_not_here (mid ++ enduml ++ post) Hpre).
    apply IH. eapply first_after_tail. exact Hpre.
Qed.

Lemma match_uml_inv (s m : jsstring) :
  match_uml s = Some m ->
  exists pre post, s = pre ++ startuml ++ m ++ enduml ++ post.
Proof.
  induction s as [| c s IH]; intros H.
  - cbn in H. discriminate.
  - cbn [match_uml] in H.
    destruct (starts_with same startuml (c :: s)) eqn:E.
    + destruct (lazy_until enduml (skipn (List.length startuml) (c :: s)))
        as [m' |] eqn:E'.
      * injection H as <-. apply starts_with_same_inv in E.
        apply lazy_until_inv in E' as [r Hr].
        exists [], r. rewrite E at 1. rewrite Hr. reflexivity.
      * destruct (IH H) as (pre & post & Hs).
        exists (c :: pre), post. rewrite Hs. reflexivity.
    + destruct (IH H) as (pre & post & Hs).
      exists (c :: pre), post. rewrite Hs. reflexivity.
Qed.

End Delimiters.

Section FirstOccurrence.

Lemma first_after_nil (p : jsstring) : first_after [] p.
Proof.
  intros x y E. apply (f_equal (@List.length N)) in E.
  rewrite !length_app in E. cbn [List.length] in E.
  destruct y; [reflexivity |]. cbn [List.length] in E. lia.
Qed.

(** A word that occurs has a first occurrence. *)
Lemma first_occurrence (p x y : jsstring) :
  exists x' y',
    x ++ p ++ y = x' ++ p ++ y'
    /\ first_after x' p
    /\ List.length x' <= List.length x.
Proof.
  induction x as [| c x IH].
  - exists [], y. split; [reflexivity |].
    split; [apply first_after_nil | apply Nat.le_refl].
  - destruct (starts_with same p ((c :: x) ++ p ++ y)) eqn:Here.
    + apply starts_with_same_inv in Here.
      exists [], (skipn (List.length p) ((c :: x) ++ p ++ y)).
      split; [exact Here |].
      split; [apply first_after_nil | apply Nat.le_0_l].
    + destruct IH as (x' & y' & E & Hfirst & Hlen).
      exists (c :: x'), y'. split; [cbn; rewrite E; reflexivity |].
      split; [| cbn; lia].
      intros x0 y0 E0. destruct x0 as [| c0 x0].
      * exfalso.
        assert (Hs : (c :: x) ++ p ++ y = p ++ y0 ++ y').
        { cbn [app]. rewrite E.
          change (c :: x' ++ p ++ y') with ((c :: x') ++ p ++ y').
          rewrite (app_assoc (c :: x')), E0. cbn [app].
          rewrite <- app_assoc. reflexivity. }
        rewrite Hs, starts_with_same_app in Here. discriminate.
      * cbn in E0. injection E0 as _ E0. exact (Hfirst _ _ E0).
Qed.

(** A reply that holds a tag pair holds a first one: the first opening
    tag and the first closing tag after it. *)
Lemma first_diagram (reply : jsstring) :
  has_diagram reply ->
  exists pre mid post,
    reply = pre ++ startuml ++ mid ++ enduml ++ post
    /\ first_after pre startuml
    /\ first_after mid enduml.
Proof.
  intros (pre0 & mid0 & post0 & E0).
  destruct (first_occurrence startuml pre0 (mid0 ++ enduml ++ post0))
    as (pre & rest & E & Hpre & Hlen).
  assert (Hrest : exists d, rest = d ++ enduml ++ post0).
  { rewrite !app_assoc in E. rewrite <- !app_assoc in E.
    rewrite (app_assoc pre0), (app_assoc pre) in E.
    apply app_eq_app in E as [l [[E1 E2] | [E1 E2]]].
    - exists (l ++ mid0). rewrite E2, <- app_assoc. reflexivity.
    - apply (f_equal (@List.length N)) in E1.
      rewrite !length_app in E1.
      assert (l = []) by (destruct l; [reflexivity | cbn in E1; lia]).
      subst l. cbn in E2. exists mid0. symmetry. exact E2. }
  destruct Hrest as [d Hd].
  destruct (first_occurrence enduml d post0)
    as (mid & post & E' & Hmid & _).
  exists pre, mid, post. split; [| split; assumption].
  rewrite E0, E, Hd, E'. reflexivity.
Qed.

End FirstOccurrence.

(* ------------------------------------------------------------------ *)
(** *** White space and fences *)

Section Fences.

Lemma drop_ws_all (w s : jsstring) :
  all_ws w -> drop_ws (w ++ s) = drop_ws s.
Proof.
  unfold all_ws. induction w as [| c w IH]; intros H; [reflexivity |].
  cbn in H. apply andb_true_iff in H as [Hc Hw].
  cbn. rewrite Hc. apply IH. exact Hw.
Qed.

Lemma drop_ws_blank (w : jsstring) : all_ws w -> drop_ws w = [].
Proof.
  intros H. rewrite <- (app_nil_r w), (drop_ws_all [] H). reflexivity.
Qed.

Lemma drop_ws_app_stop (a b : jsstring) (h : N) :
  is_ws h = false -> drop_ws (a ++ h :: b) = drop_ws a ++ h :: b.
Proof.
  intros Hh. induction a as [| c a IH]; cbn.
  - rewrite Hh. reflexivity.
  - destruct (is_ws c); [exact IH | reflexivity].
Qed.

Lemma drop_ws_idem (s : jsstring) : drop_ws (drop_ws s) = drop_ws s.
Proof.
  induction s as [| c s IH]; [reflexivity |].
  cbn. destruct (is_ws c) eqn:E; [exact IH |]. cbn. rewrite E. reflexivity.
Qed.

Lemma drop_ws_split (s : jsstring) :
  exists w, all_ws w /\ s = w ++ drop_ws s.
Proof.
  induction s as [| c s (w & Hw & E)].
  - exists []. split; reflexivity.
  - cbn. destruct (is_ws c) eqn:Hc.
    + exists (c :: w). split; [| cbn; rewrite <- E; reflexivity].
      unfold all_ws. cbn. rewrite Hc. exact Hw.
    + exists []. split; reflexivity.
Qed.

Lemma all_ws_rev (w : jsstring) : all_ws w -> all_ws (rev w).
Proof.
  unfold all_ws. rewrite !forallb_forall. intros H c Hc.
  apply H. apply in_rev. exact Hc.
Qed.

Lemma trim_drop_ws (s : jsstring) : trim (drop_ws s) = trim s.
Proof. unfold trim. rewrite drop_ws_idem. reflexivity. Qed.

(** White space after the text does not survive trimming. *)
Lemma trim_app_ws (s w : jsstring) : all_ws w -> trim (s ++ w) = trim s.
Proof.
  intros Hw. unfold trim, rtrim.
  destruct (drop_ws_split s) as (v & Hv & E).
  destruct (drop_ws s) as [| h t] eqn:Hs.
  - rewrite app_nil_r in E. subst s.
    rewrite (drop_ws_all w Hv), (drop_ws_blank Hw). reflexivity.
  - assert (Hh : is_ws h = false).
    { destruct (is_ws h) eqn:Hh; [| reflexivity].
      pose proof (drop_ws_idem s) as Hi. rewrite Hs in Hi. cbn in Hi.
      rewrite Hh in Hi.
      apply (f_equal (@List.length N)) in Hi. cbn in Hi.
      assert (Hle : forall l, List.length (drop_ws l) <= List.length l).
      { induction l as [| c l IHl]; cbn; [lia |].
        destruct (is_ws c); cbn; lia. }
      specialize (Hle t). lia. }
    rewrite E at 1. rewrite <- app_assoc, (drop_ws_all _ Hv).
    change ((h :: t) ++ w) with ([] ++ h :: (t ++ w)).
    rewrite (@drop_ws_app_stop [] (t ++ w) h Hh). cbn [drop_ws app].
    change (h :: t ++ w) with ((h :: t) ++ w).
    rewrite rev_app_distr, (drop_ws_all _ (all_ws_rev Hw)). reflexivity.
Qed.

Lemma split_close_fence_app (before w : jsstring) :
  all_ws w -> split_close_fence (before ++ fence ++ w) = Some before.
Proof.
  intros Hw. unfold split_close_fence.
  rewrite !rev_app_distr, <- app_assoc, (drop_ws_all _ (all_ws_rev Hw)).
  change (rev fence) with fence.
  change (drop_ws (fence ++ rev before)) with (fence ++ rev before).
  rewrite starts_with_same_app.
  change (skipn (List.length fence) (fence ++ rev before))
    with (rev before).
  rewrite rev_involutive. reflexivity.
Qed.

Lemma split_close_fence_inv (s before : jsstring) :
  split_close_fence s = Some before ->
  exists w, all_ws w /\ s = before ++ fence ++ w.
Proof.
  unfold split_close_fence. intros H.
  destruct (starts_with same fence (drop_ws (rev s))) eqn:E;
    [| discriminate].
  injection H as <-. apply starts_with_same_inv in E.
  destruct (drop_ws_split (rev s)) as (v & Hv & Es).
  exists (rev v). split; [apply all_ws_rev; exact Hv |].
  rewrite <- (rev_involutive s), Es, E at 1.
  rewrite !rev_app_distr, <- app_assoc. reflexivity.
Qed.

Lemma split_close_fence_none (s : jsstring) :
  ~ closes_with_fence s -> split_close_fence s = None.
Proof.
  intros H. destruct (split_close_fence s) as [b |] eqn:E;
    [| reflexivity].
  exfalso. apply H. apply split_close_fence_inv in E as (w & Hw & Es).
  exists b, w. split; assumption.
Qed.

End Fences.

(* ------------------------------------------------------------------ *)
(** *** extractPlantUML, branch by branch *)

Section Extraction.

Lemma skipn_exact (a b : jsstring) : skipn (List.length a) (a ++ b) = b.
Proof. induction a as [| c a IH]; [reflexivity | exact IH]. Qed.

Lemma no_diagram_no_match (reply : jsstring) :
  ~ has_diagram reply -> match_uml reply = None.
Proof.
  intros H. destruct (match_uml reply) as [m |] eqn:E; [| reflexivity].
  exfalso. apply H. apply match_uml_inv in E as (pre & post & Es).
  exists pre, m, post. exact Es.
Qed.

(** No letter of the tag matches a back-quote. *)
Lemma tag_letter_not_backquote (x : N) :
  In x (lit "plantuml") -> same_ci x 96 = false.
Proof.
  cbn. intros H.
  repeat (destruct H as [<- | H]; [reflexivity |]). contradiction.
Qed.

Lemma starts_with_ext (eqc eqc' : N -> N -> bool) (p s : jsstring) :
  (forall x c, In x p -> eqc x c = eqc' x c) ->
  starts_with eqc p s = starts_with eqc' p s.
Proof.
  revert s. induction p as [| x p IH]; intros s H; [reflexivity |].
  destruct s as [| c s]; [reflexivity |]. cbn.
  rewrite (H x c) by (left; reflexivity).
  rewrite IH; [reflexivity |].
  intros y d Hy. apply H. right. exact Hy.
Qed.

Lemma starts_with_shorter (eqc : N -> N -> bool) (p q s : jsstring) :
  starts_with eqc (p ++ q) s = true -> starts_with eqc p s = true.
Proof.
  revert s. induction p as [| x p IH]; intros s H; [reflexivity |].
  destruct s as [| c s]; [discriminate |]. cbn in *.
  apply andb_true_iff in H as [Hc Hs].
  rewrite Hc. exact (IH _ Hs).
Qed.

Lemma ci_open_is_open (s : jsstring) :
  starts_with same_ci (lit "```plantuml") s = true ->
  starts_with same fence s = true.
Proof.
  change (lit "```plantuml") with (fence ++ lit "plantuml").
  intros H. apply starts_with_shorter in H.
  rewrite <- H. apply starts_with_ext.
  intros x c Hx. cbn in Hx.
  repeat (destruct Hx as [<- | Hx];
          [unfold same_ci, same; cbn; rewrite orb_false_r; reflexivity |]).
  contradiction.
Qed.

Lemma not_open_fence (s : jsstring) :
  ~ opens_with_fence s -> starts_with same fence s = false.
Proof.
  intros H. destruct (starts_with same fence s) eqn:E; [| reflexivity].
  exfalso. apply H. apply starts_with_same_inv in E.
  eexists. exact E.
Qed.

(** The delimiter branch. *)
Lemma extract_delimited (pre mid post : jsstring) :
  first_after pre startuml ->
  first_after mid enduml ->
  extractPlantUML (pre ++ startuml ++ mid ++ enduml ++ post)
  = startuml ++ mid ++ enduml.
Proof.
  intros Hpre Hmid. unfold extractPlantUML.
  rewrite (match_uml_first post Hpre Hmid). reflexivity.
Qed.

(** The fallback on a reply between an untagged fence and a closing
    fence. *)
Lemma extract_generic_fence (body w : jsstring) :
  ~ has_diagram (fence ++ body ++ fence ++ w) ->
  all_ws w ->
  starts_with same_ci (lit "plantuml") body = false ->
  extractPlantUML (fence ++ body ++ fence ++ w) = trim body.
Proof.
  intros Hno Hw Htag. unfold extractPlantUML.
  rewrite (no_diagram_no_match Hno).
  assert (H1 : strip_open_plantuml (fence ++ body ++ fence ++ w)
               = fence ++ body ++ fence ++ w).
  { unfold strip_open_plantuml.
    change (starts_with same_ci (lit "```plantuml")
              (fence ++ body ++ fence ++ w))
      with (starts_with same_ci (lit "plantuml") (body ++ fence ++ w)).
    change (fence ++ w) with (96%N :: [96; 96]%N ++ w).
    rewrite (@starts_with_app_false same_ci (lit "plantuml") body
               ([96; 96]%N ++ w) 96%N tag_letter_not_backquote Htag).
    reflexivity. }
  rewrite H1. unfold strip_open_fence.
  rewrite starts_with_same_app, skipn_exact.
  change (fence ++ w) with (96%N :: [96; 96]%N ++ w).
  rewrite (@drop_ws_app_stop body ([96; 96]%N ++ w) 96%N eq_refl).
  change (96%N :: [96; 96]%N ++ w) with (fence ++ w).
  unfold strip_close_fence. rewrite (split_close_fence_app _ Hw).
  apply trim_drop_ws.
Qed.

(** The fallback on a reply between a fence tagged "plantuml" and a
    closing fence, when the text after the tag does not itself open
    with a fence. *)
Lemma extract_tagged_fence (tag inner w : jsstring) :
  ~ has_diagram (fence ++ (tag ++ inner) ++ fence ++ w) ->
  all_ws w ->
  plantuml_tag tag ->
  starts_with same fence (drop_ws inner) = false ->
  extractPlantUML (fence ++ (tag ++ inner) ++ fence ++ w) = trim inner.
Proof.
  intros Hno Hw [Hlen Htag] Hinner. unfold extractPlantUML.
  rewrite (no_diagram_no_match Hno).
  assert (H1 : strip_open_plantuml (fence ++ (tag ++ inner) ++ fence ++ w)
               = drop_ws inner ++ fence ++ w).
  { unfold strip_open_plantuml.
    change (starts_with same_ci (lit "```plantuml")
              (fence ++ (tag ++ inner) ++ fence ++ w))
      with (starts_with same_ci (lit "plantuml")
              ((tag ++ inner) ++ fence ++ w)).
    rewrite <- (app_assoc tag).
    rewrite starts_with_app_l by (rewrite Hlen; apply Nat.le_refl).
    rewrite Htag.
    change (List.length (lit "```plantuml")) with (3 + 8).
    rewrite <- Hlen.
    change (skipn (3 + List.length tag)
              (fence ++ tag ++ inner ++ fence ++ w))
      with (skipn (List.length tag) (tag ++ inner ++ fence ++ w)).
    rewrite skipn_exact.
    change (fence ++ w) with (96%N :: [96; 96]%N ++ w).
    apply (@drop_ws_app_stop inner ([96; 96]%N ++ w) 96%N eq_refl). }
  rewrite H1. rewrite <- (trim_drop_ws inner).
  destruct (drop_ws inner) as [| c1 [| c2 [| c3 t]]] eqn:Ei.
  - (* nothing but white space after the tag *)
    cbn [app]. unfold strip_open_fence.
    rewrite starts_with_same_app, skipn_exact, (drop_ws_blank Hw).
    reflexivity.
  - (* one character *)
    destruct (N.eqb_spec 96 c1) as [<- | Hc].
    + change (strip_open_fence ([96%N] ++ fence ++ w))
        with (drop_ws (96%N :: w)).
      change (drop_ws (96%N :: w)) with ([96%N] ++ w).
      unfold strip_close_fence, split_close_fence.
      rewrite rev_app_distr, (drop_ws_all _ (all_ws_rev Hw)).
      cbn. apply (trim_app_ws [96%N] Hw).
    + unfold strip_open_fence.
      replace (starts_with same fence ([c1] ++ fence ++ w)) with false
        by (change fence with [96; 96; 96]%N; cbn [starts_with app];
            unfold same; rewrite ?N.eqb_refl;
            rewrite (proj2 (N.eqb_neq _ _) Hc); reflexivity).
      unfold strip_close_fence. rewrite (split_close_fence_app _ Hw).
      reflexivity.
  - (* two characters *)
    destruct (N.eqb_spec 96 c1) as [<- | Hc1];
      [destruct (N.eqb_spec 96 c2) as [<- | Hc2] |].
    + change (strip_open_fence ([96%N; 96%N] ++ fence ++ w))
        with (drop_ws (96%N :: 96%N :: w)).
      change (drop_ws (96%N :: 96%N :: w)) with ([96%N; 96%N] ++ w).
      unfold strip_close_fence, split_close_fence.
      rewrite rev_app_distr, (drop_ws_all _ (all_ws_rev Hw)).
      cbn. apply (trim_app_ws [96%N; 96%N] Hw).
    + unfold strip_open_fence.
      replace (starts_with same fence ([96%N; c2] ++ fence ++ w))
        with false
        by (change fence with [96; 96; 96]%N; cbn [starts_with app];
            unfold same; rewrite ?N.eqb_refl;
            rewrite (proj2 (N.eqb_neq _ _) Hc2); reflexivity).
      unfold strip_close_fence. rewrite (split_close_fence_app _ Hw).
      reflexivity.
    + unfold strip_open_fence.
      replace (starts_with same fence ([c1; c2] ++ fence ++ w)) with false
        by (change fence with [96; 96; 96]%N; cbn [starts_with app];
            unfold same; rewrite ?N.eqb_refl;
            rewrite (proj2 (N.eqb_neq _ _) Hc1); reflexivity).
      unfold strip_close_fence. rewrite (split_close_fence_app _ Hw).
      reflexivity.
  - (* three characters or more: they are not a fence *)
    unfold strip_open_fence.
    rewrite starts_with_app_l by (cbn; lia).
    rewrite Hinner.
    unfold strip_close_fence. rewrite (split_close_fence_app _ Hw).
    reflexivity.
Qed.

(** The fallback on a reply with no fence at either end. *)
Lemma extract_plain (reply : jsstring) :
  ~ has_diagram reply ->
  ~ opens_with_fence reply ->
  ~ closes_with_fence reply ->
  extractPlantUML reply = trim reply.
Proof.
  intros Hno Hopen Hclose. unfold extractPlantUML.
  rewrite (no_diagram_no_match Hno).
  assert (H1 : strip_open_plantuml reply = reply).
  { unfold strip_open_plantuml.
    destruct (starts_with same_ci (lit "```plantuml") reply) eqn:E;
      [| reflexivity].
    apply ci_open_is_open in E.
    rewrite (not_open_fence Hopen) in E. discriminate. }
  rewrite H1. unfold strip_open_fence. rewrite (not_open_fence Hopen).
  unfold strip_close_fence. rewrite (split_close_fence_none Hclose).
  reflexivity.
Qed.

End Extraction.

Lemma no_match_no_diagram (reply : jsstring) :
  match_uml reply = None -> ~ has_diagram reply.
Proof.
  intros E H.
  destruct (first_diagram H) as (pre & mid & post & Er & Hpre & Hmid).
  rewrite Er, (match_uml_first post Hpre Hmid) in E. discriminate.
Qed.

(** C4 as worded does not hold for every fenced reply.  A fence with the
    info string "puml" loses its back-quotes but keeps the info string, and
    a fence after a line break keeps its opening back-quotes: in both
    cases the result is not the inner text "A -> B". *)
Lemma extractPlantUML_fence_left_in :
  extractPlantUML
    (lit "```puml" ++ [10%N] ++ lit "A -> B" ++ [10%N] ++ lit "```")
  = lit "puml" ++ [10%N] ++ lit "A -> B"
  /\ extractPlantUML
       ([10%N] ++ lit "```" ++ [10%N] ++ lit "A -> B" ++ [10%N] ++ lit "```")
     = lit "```" ++ [10%N] ++ lit "A -> B"
  /\ extractPlantUML
       (lit "```puml" ++ [10%N] ++ lit "A -> B" ++ [10%N] ++ lit "```")
     <> lit "A -> B"
  /\ extractPlantUML
       ([10%N] ++ lit "```" ++ [10%N] ++ lit "A -> B" ++ [10%N] ++ lit "```")
     <> lit "A -> B".
Proof.
  repeat split; try reflexivity; vm_compute; discriminate.
Qed.

(** C4, as the code has it: the post-processing of a diagram reply is a
    three-way fallback.
    - A reply that holds an opening tag with a closing tag after it yields
      the text from the first opening tag to the end of the first closing
      tag after it, both tags included and everything around dropped.
    - Otherwise, a reply that starts with a fence and ends with a fence
      followed by white space only yields the text between the two,
      trimmed; when the opening fence is tagged "plantuml" (in any case)
      the tag goes as well, provided the text after it does not itself
      open with a fence.
    - Otherwise the result is the reply cleaned of the fence it may have at
      one end and trimmed; with no fence at either end that is the reply,
      trimmed.
    No reply makes the extraction fail: once the request is answered,
    [generatePlantUML] returns. *)
Theorem extractPlantUML_three_way :
  forall (reply : jsstring),
    (has_diagram reply ->
       exists pre mid post,
         reply = pre ++ startuml ++ mid ++ enduml ++ post
         /\ first_after pre startuml
         /\ first_after mid enduml
         /\ extractPlantUML reply = startuml ++ mid ++ enduml)
    /\ (forall pre mid post,
          reply = pre ++ startuml ++ mid ++ enduml ++ post ->
          first_after pre startuml ->
          first_after mid enduml ->
          extractPlantUML reply = startuml ++ mid ++ enduml)
    /\ (~ has_diagram reply ->
        forall body w,
          reply = fence ++ body ++ fence ++ w ->
          all_ws w ->
          (starts_with same_ci (lit "plantuml") body = false ->
             extractPlantUML reply = trim body)
          /\ (forall tag inner,
                body = tag ++ inner ->
                plantuml_tag tag ->
                starts_with same fence (drop_ws inner) = false ->
                extractPlantUML reply = trim inner))
    /\ (~ has_diagram reply ->
        extractPlantUML reply
        = trim (strip_close_fence
                  (strip_open_fence (strip_open_plantuml reply))))
    /\ (~ has_diagram reply ->
        ~ opens_with_fence reply ->
        ~ closes_with_fence reply ->
        extractPlantUML reply = trim reply)
    /\ (forall (w : World) (k : ApiClient) (history platform : jsstring)
               (t : option jsstring),
          ai w = Some k ->
          or_else t [] = reply ->
          settles (generatePlantUML history platform (Resolves t)) w
          = inr (extractPlantUML reply)).
Proof.
  intros reply. repeat split.
  - intros H.
    destruct (first_diagram H) as (pre & mid & post & E & Hpre & Hmid).
    exists pre, mid, post. repeat split; try assumption.
    rewrite E. apply extract_delimited; assumption.
  - intros pre mid post E Hpre Hmid. rewrite E.
    apply extract_delimited; assumption.
  - intros Htag. subst reply. apply extract_generic_fence; assumption.
  - intros tag inner Eb Htag Hinner. subst reply body.
    apply extract_tagged_fence; assumption.
  - intros Hno. unfold extractPlantUML.
    rewrite (no_diagram_no_match Hno). reflexivity.
  - apply extract_plain.
  - intros w k history platform t Hk Et. subst reply.
    unfold_prog. rewrite Hk. cbn. reflexivity.
Qed.

(** A test for [first_after] on given strings. *)
Lemma first_after_check (a p : jsstring) :
  forallb (fun i => negb (starts_with same p (skipn i (a ++ p))))
    (seq 0 (List.length a)) = true ->
  first_after a p.
Proof.
  intros H x y E. destruct y as [| c y]; [reflexivity |]. exfalso.
  assert (Hlen : List.length x < List.length a).
  { apply (f_equal (@List.length N)) in E.
    rewrite !length_app in E. cbn [List.length] in E. lia. }
  rewrite forallb_forall in H.
  specialize (H (List.length x)).
  rewrite E, skipn_exact, starts_with_same_app in H.
  assert (Hin : In (List.length x) (seq 0 (List.length a)))
    by (apply in_seq; lia).
  specialize (H Hin). discriminate.
Qed.

Lemma extractPlantUML_three_way_witness :
  extractPlantUML noisy_reply
  = startuml ++ ([10%N] ++ lit "A -> B" ++ [10%N]) ++ enduml
  /\ extractPlantUML fenced_reply = lit "A -> B"
  /\ extractPlantUML bare_reply = lit "A -> B".
Proof.
  split; [| split].
  - apply (proj1 (proj2 (extractPlantUML_three_way noisy_reply))
             (lit "Here it is: ") ([10%N] ++ lit "A -> B" ++ [10%N])
             (lit " Anything else?")).
    + reflexivity.
    + apply first_after_check. vm_compute. reflexivity.
    + apply first_after_check. vm_compute. reflexivity.
  - refine (proj2 (proj1 (proj2 (proj2 (extractPlantUML_three_way
              fenced_reply))) _
              (lit "PlantUML" ++ [10%N] ++ lit "A -> B" ++ [10%N]) [10%N]
              eq_refl eq_refl)
              (lit "PlantUML") ([10%N] ++ lit "A -> B" ++ [10%N])
              eq_refl (conj eq_refl eq_refl) eq_refl).
    apply no_match_no_diagram. reflexivity.
  - apply (proj1 (proj2 (proj2 (proj2 (proj2
             (extractPlantUML_three_way bare_reply)))))).
    + apply no_match_no_diagram. reflexivity.
    + intros [rest E]. discriminate E.
    + intros (before & w & Hw & E).
      pose proof (split_close_fence_app before Hw) as Hs.
      rewrite <- E in Hs. discriminate Hs.
Defined.

(* ------------------------------------------------------------------ *)
(** *** The diagram URL *)

Section Base64.

Local Open Scope N_scope.

(** Linear arithmetic with division and remainder by constants. *)
Ltac divmod_lia := zify; Z.to_euclidean_division_equations; lia.

Lemma replace_all_twice (s : jsstring) :
  replace_all 47 95 (replace_all 43 45 s) = List.map url_safe s.
Proof. unfold replace_all. rewrite map_map. reflexivity. Qed.

(** Every sextet is written as a character that is neither '+' nor '/'
    nor the padding, and that reads back as the sextet. *)
Lemma sextet_roundtrip (i : N) :
  i < 64 ->
  b64url_index (url_safe (b64_char i)) = Some i
  /\ (url_safe (b64_char i) =? b64_pad) = false
  /\ url_safe (b64_char i) <> 43
  /\ url_safe (b64_char i) <> 47.
Proof.
  intros Hi.
  assert (Hall :
    forallb (fun n =>
               let c := url_safe (b64_char (N.of_nat n)) in
               match b64url_index c with
               | Some j => j =? N.of_nat n
               | None => false
               end
               && negb (c =? b64_pad) && negb (c =? 43) && negb (c =? 47))
      (seq 0 64) = true) by (vm_compute; reflexivity).
  rewrite forallb_forall in Hall.
  specialize (Hall (N.to_nat i)).
  rewrite N2Nat.id in Hall.
  assert (Hin : In (N.to_nat i) (seq 0 64)) by (apply in_seq; lia).
  specialize (Hall Hin). cbv zeta in Hall.
  repeat (apply andb_true_iff in Hall as [Hall ?]).
  destruct (b64url_index (url_safe (b64_char i))) as [j |];
    [| discriminate].
  apply N.eqb_eq in Hall. subst j.
  repeat split.
  - apply negb_true_iff. assumption.
  - apply N.eqb_neq, negb_true_iff. assumption.
  - apply N.eqb_neq, negb_true_iff. assumption.
Qed.

(** Induction three octets at a time. *)
Lemma octets_ind (P : list N -> Prop) :
  P [] ->
  (forall a, P [a]) ->
  (forall a b, P [a; b]) ->
  (forall a b c rest, P rest -> P (a :: b :: c :: rest)) ->
  forall l, P l.
Proof.
  intros Hnil Hone Htwo Hthree l.
  assert (H : P l /\ (forall a, P (a :: l)) /\ (forall a b, P (a :: b :: l))).
  { induction l as [| x l (IH0 & IH1 & IH2)].
    - repeat split; auto.
    - repeat split; auto. }
  apply H.
Qed.

Lemma b64_decode_encode (bin : list N) :
  octets bin ->
  b64url_decode (List.map url_safe (b64_groups bin)) = Some bin.
Proof.
  induction bin as [| a | a b | a b c rest IH] using octets_ind;
    intros Hoct.
  - reflexivity.
  - inversion_clear Hoct as [| ? ? Ha _].
    destruct (@sextet_roundtrip (a / 4)) as (E1 & _); [divmod_lia |].
    destruct (@sextet_roundtrip ((a mod 4) * 16)) as (E2 & _);
      [divmod_lia |].
    cbn [b64_groups List.map b64url_decode].
    rewrite E1, E2. change (url_safe b64_pad =? b64_pad) with true.
    cbv iota. do 2 f_equal. divmod_lia.
  - inversion_clear Hoct as [| ? ? Ha Hoct']. 
    inversion_clear Hoct' as [| ? ? Hb _].
    destruct (@sextet_roundtrip (a / 4)) as (E1 & _); [divmod_lia |].
    destruct (@sextet_roundtrip ((a mod 4) * 16 + b / 16)) as (E2 & _);
      [divmod_lia |].
    destruct (@sextet_roundtrip ((b mod 16) * 4)) as (E3 & P3 & _);
      [divmod_lia |].
    cbn [b64_groups List.map b64url_decode].
    rewrite E1, E2, P3, E3. change (url_safe b64_pad =? b64_pad) with true.
    cbv iota. f_equal. f_equal; [divmod_lia |]. f_equal. divmod_lia.
  - inversion_clear Hoct as [| ? ? Ha Hoct']. 
    inversion_clear Hoct' as [| ? ? Hb Hoct''].
    inversion_clear Hoct'' as [| ? ? Hc Hrest].
    destruct (@sextet_roundtrip (a / 4)) as (E1 & _); [divmod_lia |].
    destruct (@sextet_roundtrip ((a mod 4) * 16 + b / 16)) as (E2 & _);
      [divmod_lia |].
    destruct (@sextet_roundtrip ((b mod 16) * 4 + c / 64))
      as (E3 & P3 & _); [divmod_lia |].
    destruct (@sextet_roundtrip (c mod 64)) as (E4 & P4 & _);
      [divmod_lia |].
    cbn [b64_groups List.map b64url_decode].
    rewrite E1, E2, P3, E3, P4, E4, (IH Hrest).
    f_equal. f_equal; [divmod_lia |]. f_equal; [divmod_lia |].
    f_equal. divmod_lia.
Qed.

(** No '+' and no '/' is left in the payload. *)
Lemma b64_url_safe (bin : list N) :
  octets bin ->
  Forall (fun c => c <> 43 /\ c <> 47)
    (List.map url_safe (b64_groups bin)).
Proof.
  assert (Hpad : url_safe b64_pad <> 43 /\ url_safe b64_pad <> 47)
    by (split; discriminate).
  induction bin as [| a | a b | a b c rest IH] using octets_ind;
    intros Hoct.
  - constructor.
  - inversion_clear Hoct as [| ? ? Ha _].
    cbn [b64_groups List.map].
    repeat (constructor; [first [exact Hpad
      | apply sextet_roundtrip; divmod_lia] |]).
    constructor.
  - inversion_clear Hoct as [| ? ? Ha Hoct']. 
    inversion_clear Hoct' as [| ? ? Hb _].
    cbn [b64_groups List.map].
    repeat (constructor; [first [exact Hpad
      | apply sextet_roundtrip; divmod_lia] |]).
    constructor.
  - inversion_clear Hoct as [| ? ? Ha Hoct']. 
    inversion_clear Hoct' as [| ? ? Hb Hoct''].
    inversion_clear Hoct'' as [| ? ? Hc Hrest].
    cbn [b64_groups List.map].
    repeat (constructor; [apply sextet_roundtrip; divmod_lia |]).
    exact (IH Hrest).
Qed.

Lemma binary_of_octets (z : list Byte.byte) : octets (binary_of z).
Proof.
  unfold octets, binary_of. apply Forall_map, Forall_forall.
  intros b _. pose proof (Byte.to_N_bounded b). lia.
Qed.

(** [btoa] never throws on the characters made from bytes. *)
Lemma btoa_binary_of (z : list Byte.byte) :
  btoa (binary_of z) = Some (b64_groups (binary_of z)).
Proof.
  unfold btoa.
  replace (forallb (fun c => c <=? 255) (binary_of z)) with true;
    [reflexivity |].
  symmetry. apply forallb_forall. intros c Hc.
  pose proof (binary_of_octets z) as H.
  unfold octets in H. rewrite Forall_forall in H.
  apply N.leb_le. apply H. exact Hc.
Qed.

Lemma binary_of_inj (z z' : list Byte.byte) :
  binary_of z = binary_of z' -> z = z'.
Proof.
  revert z'. induction z as [| b z IH]; intros [| b' z'] E;
    cbn in E; try discriminate; [reflexivity |].
  injection E as Eb Ez. f_equal; [| apply IH; exact Ez].
  apply (f_equal Byte.of_N) in Eb.
  rewrite !Byte.of_to_N in Eb. injection Eb as Eb. exact Eb.
Qed.

End Base64.

(** C5: the diagram URL is a function of the diagram source alone.  An
    empty source gives the empty string, and so does a failure of the
    compression; otherwise the source is encoded to bytes, compressed, and
    the compressed bytes are written in base64 with '+' replaced by '-' and
    '/' by '_' after the fixed address of the viewer.  That last step never
    fails and loses nothing: the part after the address reads back as the
    compressed bytes, hence, with a codec that loses nothing, as the bytes
    of the source. *)
Theorem toDiagramURL_encodes :
  forall (encode : jsstring -> list Byte.byte)
         (deflate : list Byte.byte -> option (list Byte.byte))
         (code : jsstring),
    (code = [] -> toDiagramURL encode deflate code = [])
    /\ (deflate (encode code) = None ->
        toDiagramURL encode deflate code = [])
    /\ (forall z,
          code <> [] ->
          deflate (encode code) = Some z ->
          let payload :=
            replace_all 47 95
              (replace_all 43 45 (b64_groups (binary_of z))) in
          btoa (binary_of z) = Some (b64_groups (binary_of z))
          /\ toDiagramURL encode deflate code = kroki_svg ++ payload
          /\ Forall (fun c => c <> 43 /\ c <> 47)%N payload
          /\ b64url_decode payload = Some (binary_of z)
          /\ (forall inflate z',
                (forall b c, deflate b = Some c -> inflate c = Some b) ->
                b64url_decode payload = Some (binary_of z') ->
                inflate z' = Some (encode code)))
    /\ (forall w w',
          plantUmlCode w = plantUmlCode w' ->
          diagramUrl encode deflate w = diagramUrl encode deflate w').
Proof.
  intros encode deflate code.
  split; [| split; [| split]].
  - intros ->. reflexivity.
  - intros E. unfold toDiagramURL. rewrite E.
    destruct (truthy code); reflexivity.
  - intros z Hcode Hz payload. subst payload.
    rewrite replace_all_twice.
    pose proof (binary_of_octets z) as Hoct.
    split; [apply btoa_binary_of |].
    split; [| split; [| split]].
    + unfold toDiagramURL.
      destruct code as [| c code]; [contradiction |].
      cbn [truthy].
      rewrite Hz, btoa_binary_of, replace_all_twice. reflexivity.
    + apply b64_url_safe. exact Hoct.
    + apply b64_decode_encode. exact Hoct.
    + intros inflate z' Hinflate Hdec.
      rewrite (b64_decode_encode Hoct) in Hdec.
      injection Hdec as Hdec. apply binary_of_inj in Hdec. subst z'.
      apply Hinflate. exact Hz.
  - intros w w' E. unfold diagramUrl. rewrite E. reflexivity.
Qed.

Lemma toDiagramURL_encodes_witness :
  toDiagramURL ascii_bytes sample_deflate [] = []
  /\ toDiagramURL ascii_bytes sample_deflate sample_source
     = kroki_svg ++ lit "eNpzKC5JLCopzc3hclTQtVNw4nJIzUsBcgFi-gfE"
  /\ b64url_decode (lit "eNpzKC5JLCopzc3hclTQtVNw4nJIzUsBcgFi-gfE")
     = Some (binary_of sample_stream).
Proof.
  pose proof (toDiagramURL_encodes ascii_bytes sample_deflate sample_source)
    as (_ & _ & H & _).
  specialize (H sample_stream ltac:(discriminate) eq_refl).
  cbv zeta in H. destruct H as (_ & Hurl & _ & Hdec & _).
  split; [| split].
  - apply (toDiagramURL_encodes ascii_bytes sample_deflate []). reflexivity.
  - exact Hurl.
  - exact Hdec.
Defined.

(* ------------------------------------------------------------------ *)
(** *** Trimmed text *)

Section Trimmed.

Lemma drop_ws_head (s r : jsstring) (c : N) :
  drop_ws s = c :: r -> is_ws c = false.
Proof.
  induction s as [| x s IH]; cbn; [discriminate |].
  destruct (is_ws x) eqn:E; [exact IH |].
  intros H. injection H as <- _. exact E.
Qed.

Lemma drop_ws_fix (s : jsstring) :
  (forall c r, s = c :: r -> is_ws c = false) -> drop_ws s = s.
Proof.
  destruct s as [| c r]; [reflexivity |].
  intros H. cbn. rewrite (H c r eq_refl). reflexivity.
Qed.

(** Trimming at the end takes white space off the end only. *)
Lemma rtrim_split (s : jsstring) : exists w, all_ws w /\ s = rtrim s ++ w.
Proof.
  destruct (drop_ws_split (rev s)) as (v & Hv & E).
  exists (rev v). split; [apply all_ws_rev; exact Hv |].
  unfold rtrim. remember (drop_ws (rev s)) as d.
  apply (f_equal (@rev N)) in E.
  rewrite rev_involutive, rev_app_distr in E. exact E.
Qed.

Lemma trim_trimmed (s : jsstring) : trimmed (trim s).
Proof.
  unfold trim. split.
  - intros c r E.
    destruct (rtrim_split (drop_ws s)) as (w & _ & Es).
    rewrite E in Es. exact (drop_ws_head s Es).
  - intros c r E. unfold rtrim in E.
    apply (f_equal (@rev N)) in E.
    rewrite rev_involutive, rev_app_distr in E.
    exact (drop_ws_head _ E).
Qed.

Lemma trimmed_rev (s : jsstring) : trimmed s -> trimmed (rev s).
Proof.
  intros [Hfirst Hlast]. split.
  - intros c r E. apply (Hlast c (rev r)).
    rewrite <- (rev_involutive s), E. reflexivity.
  - intros c r E. apply (Hfirst c (rev r)).
    rewrite <- (rev_involutive s), E, rev_app_distr. reflexivity.
Qed.

Lemma trim_of_trimmed (s : jsstring) : trimmed s -> trim s = s.
Proof.
  intros H. unfold trim, rtrim.
  rewrite (drop_ws_fix (proj1 H)), (drop_ws_fix (proj1 (trimmed_rev H))).
  apply rev_involutive.
Qed.

Lemma trim_idem (s : jsstring) : trim (trim s) = trim s.
Proof. apply trim_of_trimmed, trim_trimmed. Qed.

(** The delimited block starts with '@' and ends with 'l'. *)
Lemma delimited_trimmed (m : jsstring) : trimmed (startuml ++ m ++ enduml).
Proof.
  split.
  - intros c r E. injection E as <- _. reflexivity.
  - intros c r E.
    change (startuml ++ m ++ enduml)
      with (startuml ++ m ++ lit "@endum" ++ [108%N]) in E.
    rewrite !app_assoc in E. apply app_inj_tail in E as [_ <-].
    reflexivity.
Qed.

End Trimmed.

(** X3: whatever the model replied, the PRD or SDD text kept by
    [cleanMarkdown] and the diagram source kept by the extraction of
    [generatePlantUML] neither start nor end with white space. *)
Theorem post_processing_trimmed :
  forall (reply : jsstring),
    trimmed (cleanMarkdown reply) /\ trimmed (extractPlantUML reply).
Proof.
  intros reply. split.
  - unfold cleanMarkdown.
    destruct (match_code_block reply); apply trim_trimmed.
  - unfold extractPlantUML.
    destruct (match_uml reply);
      [apply delimited_trimmed | apply trim_trimmed].
Qed.

(* ------------------------------------------------------------------ *)
(** *** cleanMarkdown *)

Section CleanMarkdown.

Lemma markdown_letter_not_backquote (x : N) :
  In x (lit "markdown") -> same_ci x 96 = false.
Proof.
  cbn. intros H.
  repeat (destruct H as [<- | H]; [reflexivity |]). contradiction.
Qed.

Lemma match_block_tail_closed (body w : jsstring) :
  all_ws w -> match_block_tail (body ++ fence ++ w) = Some (trim body).
Proof.
  intros Hw. unfold match_block_tail.
  change (fence ++ w) with (96%N :: [96; 96]%N ++ w).
  rewrite (@drop_ws_app_stop body ([96; 96]%N ++ w) 96%N eq_refl).
  change (96%N :: [96; 96]%N ++ w) with (fence ++ w).
  rewrite (split_close_fence_app _ Hw). reflexivity.
Qed.

(** A document between a bare fence and a closing fence. *)
Lemma cleanMarkdown_bare_fence (lead body w : jsstring) :
  all_ws lead -> all_ws w ->
  starts_with same_ci (lit "markdown") body = false ->
  cleanMarkdown (lead ++ fence ++ body ++ fence ++ w) = trim body.
Proof.
  intros Hlead Hw Htag. unfold cleanMarkdown, match_code_block.
  rewrite (drop_ws_all _ Hlead).
  change (drop_ws (fence ++ body ++ fence ++ w))
    with (fence ++ body ++ fence ++ w).
  rewrite starts_with_same_app, skipn_exact. cbv zeta.
  change (fence ++ w) with (96%N :: [96; 96]%N ++ w) at 1.
  rewrite (@starts_with_app_false same_ci (lit "markdown") body
             ([96; 96]%N ++ w) 96%N markdown_letter_not_backquote Htag).
  rewrite (match_block_tail_closed body Hw). apply trim_idem.
Qed.

(** A document between a fence tagged "markdown" and a closing fence. *)
Lemma cleanMarkdown_tagged_fence (lead tag inner w : jsstring) :
  all_ws lead -> all_ws w ->
  markdown_tag tag ->
  cleanMarkdown (lead ++ fence ++ (tag ++ inner) ++ fence ++ w)
  = trim inner.
Proof.
  intros Hlead Hw [Hlen Htag]. unfold cleanMarkdown, match_code_block.
  rewrite (drop_ws_all _ Hlead).
  change (drop_ws (fence ++ (tag ++ inner) ++ fence ++ w))
    with (fence ++ (tag ++ inner) ++ fence ++ w).
  rewrite starts_with_same_app, skipn_exact. cbv zeta.
  rewrite <- (app_assoc tag).
  rewrite starts_with_app_l by (rewrite Hlen; apply Nat.le_refl).
  rewrite Htag.
  change (List.length (lit "markdown")) with 8. rewrite <- Hlen.
  rewrite skipn_exact, (match_block_tail_closed inner Hw).
  apply trim_idem.
Qed.

(** A document with no fence at either end. *)
Lemma cleanMarkdown_plain (text : jsstring) :
  ~ opens_with_fence (drop_ws text) ->
  ~ closes_with_fence text ->
  cleanMarkdown text = trim text.
Proof.
  intros Hopen Hclose.
  unfold cleanMarkdown, match_code_block, strip_md_open, strip_md_close.
  rewrite (not_open_fence Hopen), (split_close_fence_none Hclose).
  reflexivity.
Qed.

End CleanMarkdown.

(** X1: [cleanMarkdown] unwraps a document that the model put in a code
    fence.  White space before the opening fence and after the closing one
    is allowed; the opening fence may be bare or tagged "markdown" in any
    letter case; the result is the text between the fences, trimmed.  A
    document with no fence at either end comes back trimmed and otherwise
    unchanged. *)
Theorem cleanMarkdown_unwraps :
  forall (lead body w : jsstring),
    all_ws lead ->
    all_ws w ->
    (starts_with same_ci (lit "markdown") body = false ->
       cleanMarkdown (lead ++ fence ++ body ++ fence ++ w) = trim body)
    /\ (forall tag inner,
          body = tag ++ inner ->
          markdown_tag tag ->
          cleanMarkdown (lead ++ fence ++ body ++ fence ++ w) = trim inner)
    /\ (forall text,
          ~ opens_with_fence (drop_ws text) ->
          ~ closes_with_fence text ->
          cleanMarkdown text = trim text).
Proof.
  intros lead body w Hlead Hw. repeat split.
  - apply cleanMarkdown_bare_fence; assumption.
  - intros tag inner -> Htag.
    apply cleanMarkdown_tagged_fence; assumption.
  - apply cleanMarkdown_plain.
Qed.

Lemma cleanMarkdown_unwraps_witness :
  cleanMarkdown ([10%N] ++ fence
                   ++ (lit "MarkDown" ++ [10%N] ++ lit "# PRD " ++ [10%N])
                   ++ fence ++ [10%N])
  = trim ([10%N] ++ lit "# PRD " ++ [10%N])
  /\ cleanMarkdown ([32%N] ++ fence ++ (lit " # PRD") ++ fence ++ [])
     = trim (lit " # PRD").
Proof.
  split.
  - exact (proj1 (proj2 (@cleanMarkdown_unwraps [10%N]
             (lit "MarkDown" ++ [10%N] ++ lit "# PRD " ++ [10%N]) [10%N]
             eq_refl eq_refl))
             (lit "MarkDown") ([10%N] ++ lit "# PRD " ++ [10%N]) eq_refl
             (conj eq_refl eq_refl)).
  - exact (proj1 (@cleanMarkdown_unwraps [32%N] (lit " # PRD") []
             eq_refl eq_refl) eq_refl).
Defined.

(* ------------------------------------------------------------------ *)
(** *** The Enter key *)

(** Unfolds a handler down to the monad's operations. *)
Ltac unfold_handlers :=
  unfold run_events, handle, invoke, handleEnter, handleSddEnter,
    unawaited, sdd_replies, fire, onload;
  unfold_prog.

Lemma str_eqb_eq (a b : jsstring) : str_eqb a b = true <-> a = b.
Proof.
  revert b. induction a as [| x a IH]; intros [| y b]; cbn;
    try (split; (reflexivity || discriminate)).
  rewrite andb_true_iff, N.eqb_eq, IH. split.
  - intros [-> ->]. reflexivity.
  - intros E. injection E as -> ->. split; reflexivity.
Qed.

Lemma str_eqb_neq (a b : jsstring) : a <> b -> str_eqb a b = false.
Proof.
  intros H. destruct (str_eqb a b) eqn:E; [| reflexivity].
  apply str_eqb_eq in E. contradiction.
Qed.

(** X4: the Enter handlers guard their sends.  Any other key, Enter with
    Shift, a chat request in flight or a generation in progress make
    [handleEnter] do nothing at all, and [handleSddEnter] likewise while an
    SDD request is in flight; neither handler ever throws, whatever
    becomes of the send it starts. *)
Theorem enter_key_guards :
  forall (event : KeyboardEvent) (reply : Outcome) (w : World),
    (key event <> lit "Enter" \/ shiftKey event = true
     \/ isChatLoading w = true \/ state w = generating ->
       handleEnter event reply w = (inr false, w))
    /\ (key event <> lit "Enter" \/ shiftKey event = true
        \/ isSddGenerating w = true ->
          handleSddEnter event reply w = (inr false, w))
    /\ (exists prevented, settles (handleEnter event reply) w = inr prevented)
    /\ (exists prevented,
          settles (handleSddEnter event reply) w = inr prevented).
Proof.
  intros event reply w. repeat split.
  - intros H. unfold handleEnter, bind, get, ret.
    replace (str_eqb (key event) (lit "Enter") && negb (shiftKey event)
             && negb (isChatLoading w) && negb (is_generating (state w)))
      with false; [reflexivity |].
    destruct H as [H | [H | [H | H]]].
    + rewrite (str_eqb_neq H). reflexivity.
    + rewrite H, andb_false_r. reflexivity.
    + rewrite H, andb_false_r. reflexivity.
    + rewrite H, andb_false_r. reflexivity.
  - intros H. unfold handleSddEnter, bind, get, ret.
    replace (str_eqb (key event) (lit "Enter") && negb (shiftKey event)
             && negb (isSddGenerating w))
      with false; [reflexivity |].
    destruct H as [H | [H | H]].
    + rewrite (str_eqb_neq H). reflexivity.
    + rewrite H, andb_false_r. reflexivity.
    + rewrite H, andb_false_r. reflexivity.
  - unfold settles, handleEnter, unawaited, try_catch, bind, get, ret.
    destruct (str_eqb (key event) (lit "Enter") && negb (shiftKey event)
              && negb (isChatLoading w) && negb (is_generating (state w)));
      [| eexists; reflexivity].
    destruct (state w);
      [destruct (startConsultation reply w) as [[e | u] w']
      | destruct (sendMessage reply w) as [[e | u] w'] ..];
      eexists; reflexivity.
  - unfold settles, handleSddEnter, unawaited, try_catch, bind, get, ret.
    destruct (str_eqb (key event) (lit "Enter") && negb (shiftKey event)
              && negb (isSddGenerating w));
      [| eexists; reflexivity].
    destruct (sendSddReply reply w) as [[e | u] w']; eexists; reflexivity.
Qed.

(* ------------------------------------------------------------------ *)
(** *** One request per await *)

(** X7: an entry point sends at most one request per external call it
    awaits, so at most one for the chat entry points and two for
    [finishAndGenerate]; nothing is retried, earlier requests stay in the
    log, and after a rejected PRD request the diagram request is not
    sent. *)
Theorem one_request_per_await :
  forall (c : Call) (w : World),
    exists sent,
      requests (after (invoke c) w) = requests w ++ sent
      /\ List.length sent <= awaits c
      /\ (forall umlReply,
            c = CallGenerate Rejects umlReply -> List.length sent <= 1).
Proof.
  intros c w. destruct c as [o | o | o | o | o o'].
  - unfold_handlers. destruct (nothing_to_send w); cbn.
    + exists []. rewrite app_nil_r. repeat split; cbn; first [lia | discriminate].
    + destruct (ai w); cbn.
      * destruct (List.length (selectedImages w)), o; cbn;
          eexists; (split; [reflexivity |]); cbn;
          split; cbn; first [lia | discriminate].
      * exists []. rewrite app_nil_r. repeat split; cbn; first [lia | discriminate].
  - unfold_handlers. destruct (chatInstance w); cbn.
    + destruct (nothing_to_send w); cbn.
      * exists []. rewrite app_nil_r. repeat split; cbn; first [lia | discriminate].
      * destruct (List.length (selectedImages w)), o; cbn;
          eexists; (split; [reflexivity |]); cbn;
          split; cbn; first [lia | discriminate].
    + exists []. rewrite app_nil_r. repeat split; cbn; first [lia | discriminate].
  - unfold_handlers. destruct (blank (sddInput w)); cbn.
    + exists []. rewrite app_nil_r. repeat split; cbn; first [lia | discriminate].
    + destruct (ai w); cbn.
      * destruct o; cbn; eexists; (split; [reflexivity |]); cbn;
          split; cbn; first [lia | discriminate].
      * exists []. rewrite app_nil_r. repeat split; cbn; first [lia | discriminate].
  - unfold_handlers. destruct (sddChatInstance w); cbn.
    + destruct (blank (sddReplyInput w)); cbn.
      * exists []. rewrite app_nil_r. repeat split; cbn; first [lia | discriminate].
      * destruct o; cbn; eexists; (split; [reflexivity |]); cbn;
          split; cbn; first [lia | discriminate].
    + exists []. rewrite app_nil_r. repeat split; cbn; first [lia | discriminate].
  - unfold_handlers. cbn. destruct (ai w) eqn:Hk; cbn.
    + destruct o as [| t]; cbn.
      * eexists. split; [reflexivity |]. cbn. split; [lia |].
        intros _ _. lia.
      * rewrite Hk. cbn. destruct o' as [| u]; cbn;
          eexists; (split; [rewrite <- app_assoc; reflexivity |]); cbn;
          split; cbn; first [lia | discriminate].
    + exists []. rewrite app_nil_r. repeat split; cbn; first [lia | discriminate].
Qed.

(* ------------------------------------------------------------------ *)
(** *** What every handler keeps *)

Section AtRest.

Lemma pairs_ind (A : Type) (P : list A -> Prop) :
  P [] ->
  (forall a, P [a]) ->
  (forall a b l, P l -> P (a :: b :: l)) ->
  forall l, P l.
Proof.
  intros Hnil Hone Hstep l.
  assert (H : P l /\ forall a, P (a :: l)).
  { induction l as [| x l [IH0 IH1]]; split; auto. }
  apply H.
Qed.

Lemma well_paired_app (a b : list Message) :
  well_paired a = true -> well_paired (a ++ b) = well_paired b.
Proof.
  induction a as [| x | x y a IH] using pairs_ind; intros H.
  - reflexivity.
  - discriminate.
  - cbn in *. destruct (role x), (role y); try discriminate.
    apply IH. exact H.
Qed.

Lemma well_paired_even (ms : list Message) :
  well_paired ms = true -> Nat.even (List.length ms) = true.
Proof.
  induction ms as [| x | x y ms IH] using pairs_ind; intros H.
  - reflexivity.
  - discriminate.
  - cbn in *. destruct (role x), (role y); try discriminate.
    apply IH. exact H.
Qed.

(** An exchange after a whole history. *)
Lemma well_paired_exchange (ms : list Message) (t a : jsstring)
      (imgs : option (list jsstring)) :
  well_paired ms = true ->
  well_paired
    (ms ++ [ {| role := user; text := t; images := imgs |};
             plain_message model a ]) = true.
Proof. intros H. rewrite (@well_paired_app ms _ H). reflexivity. Qed.

Lemma sdd_shaped_exchange (ms : list Message) (t a : jsstring) :
  sdd_shaped ms = true ->
  sdd_shaped (ms ++ [plain_message user t; plain_message model a]) = true.
Proof.
  unfold sdd_shaped. intros H. apply orb_true_iff in H as [H | H].
  - rewrite (@well_paired_app ms _ H). reflexivity.
  - destruct ms as [| m rest]; [discriminate |].
    destruct (role m) eqn:Hm; [discriminate |].
    apply orb_true_iff. right. cbn [app]. rewrite Hm.
    rewrite (@well_paired_app rest _ H). reflexivity.
Qed.

(** Closes a goal about the initial phase from what is known of it. *)
Ltac from_initial Hi :=
  match goal with
  | Hinit : state _ = initial |- _ =>
      destruct (Hi Hinit) as [? ?]; first [assumption | congruence]
  end.

Lemma startConsultation_at_rest (o : Outcome) (w : World) :
  at_rest w -> at_rest (after (startConsultation o) w).
Proof.
  intros (Hk & Hl & Hs & Hg & Hp & Hd & Hi).
  unfold_prog. destruct (nothing_to_send w); cbn.
  - repeat split; try assumption; from_initial Hi.
  - destruct (ai w) as [k |] eqn:Ek; [| contradiction]. cbn.
    destruct (List.length (selectedImages w)), o; cbn;
      (repeat split; cbn; try assumption; try discriminate;
       try (rewrite Ek; discriminate);
       rewrite <- app_assoc; apply well_paired_exchange; exact Hp).
Qed.

Lemma sendMessage_at_rest (o : Outcome) (w : World) :
  at_rest w -> at_rest (after (sendMessage o) w).
Proof.
  intros (Hk & Hl & Hs & Hg & Hp & Hd & Hi).
  unfold_prog. destruct (chatInstance w) as [c |] eqn:Ec; cbn.
  - destruct (nothing_to_send w); cbn.
    + repeat split; try assumption; from_initial Hi.
    + destruct (List.length (selectedImages w)), o; cbn;
        (repeat split; cbn; try assumption;
         try from_initial Hi;
         rewrite <- app_assoc; apply well_paired_exchange; exact Hp).
  - repeat split; try assumption; from_initial Hi.
Qed.

Lemma finishAndGenerate_at_rest (o o' : Outcome) (w : World) :
  at_rest w -> at_rest (after (finishAndGenerate o o') w).
Proof.
  intros (Hk & Hl & Hs & Hg & Hp & Hd & Hi).
  destruct (ai w) as [k |] eqn:Ek; [| contradiction].
  unfold_prog. cbn. repeat (rewrite Ek; cbn).
  destruct o as [| t]; cbn.
  - repeat split; cbn; try assumption; try discriminate;
      rewrite Ek; discriminate.
  - repeat (rewrite Ek; cbn). destruct o' as [| u]; cbn;
      (repeat split; cbn; try assumption; try discriminate;
       rewrite Ek; discriminate).
Qed.

Lemma reset_at_rest (w : World) : at_rest w -> at_rest (after reset w).
Proof.
  intros (Hk & Hl & Hs & Hg & Hp & Hd & Hi).
  unfold_prog. cbn. repeat split; cbn; try assumption; discriminate.
Qed.

Lemma generateSdd_at_rest (o : Outcome) (w : World) :
  at_rest w -> at_rest (after (generateSdd o) w).
Proof.
  intros (Hk & Hl & Hs & Hg & Hp & Hd & Hi).
  unfold_prog. destruct (blank (sddInput w)); cbn.
  - repeat split; try assumption; from_initial Hi.
  - destruct (ai w) as [k |] eqn:Ek; [| contradiction]. cbn.
    destruct o; cbn;
      (repeat split; cbn; try assumption; try from_initial Hi;
       rewrite Ek; discriminate).
Qed.

Lemma sendSddReply_at_rest (o : Outcome) (w : World) :
  at_rest w -> at_rest (after (sendSddReply o) w).
Proof.
  intros (Hk & Hl & Hs & Hg & Hp & Hd & Hi).
  unfold_prog. destruct (sddChatInstance w) as [c |]; cbn.
  - destruct (blank (sddReplyInput w)); cbn.
    + repeat split; try assumption; from_initial Hi.
    + destruct o; cbn;
        (repeat split; cbn; try assumption; try from_initial Hi;
         rewrite <- app_assoc; apply sdd_shaped_exchange; exact Hd).
  - repeat split; try assumption; from_initial Hi.
Qed.

(** A method started without [await] leaves the world as the method
    does. *)
Lemma after_unawaited (c : M unit) (w : World) :
  after (unawaited c) w = after c w.
Proof.
  unfold after, unawaited, try_catch, ret.
  destruct (c w) as [[e | u] w']; reflexivity.
Qed.

Lemma handleEnter_after (event : KeyboardEvent) (o : Outcome) (w : World) :
  after (handleEnter event o) w = w
  \/ after (handleEnter event o) w = after (startConsultation o) w
  \/ after (handleEnter event o) w = after (sendMessage o) w.
Proof.
  assert (Hrun : handleEnter event o w
                 = if str_eqb (key event) (lit "Enter")
                      && negb (shiftKey event)
                      && negb (isChatLoading w)
                      && negb (is_generating (state w))
                   then (unawaited
                           (match state w with
                            | initial => startConsultation o
                            | _ => sendMessage o
                            end) ;; ret true) w
                   else (inr false, w)).
  { unfold handleEnter. unfold bind at 1. unfold get. cbv beta iota.
    destruct (str_eqb (key event) (lit "Enter") && negb (shiftKey event)
              && negb (isChatLoading w) && negb (is_generating (state w)));
      reflexivity. }
  change (after (handleEnter event o) w) with (snd (handleEnter event o w)).
  rewrite Hrun.
  destruct (str_eqb (key event) (lit "Enter") && negb (shiftKey event)
            && negb (isChatLoading w) && negb (is_generating (state w)));
    [| left; reflexivity].
  right.
  assert (E : forall c : M unit,
            after (unawaited c ;; ret true) w = after c w).
  { intros c. rewrite <- (after_unawaited c w).
    unfold after, bind, ret.
    destruct (unawaited c w) as [[e | u] w']; reflexivity. }
  destruct (state w); [left | right ..]; exact (E _).
Qed.

Lemma handleSddEnter_after (event : KeyboardEvent) (o : Outcome)
      (w : World) :
  after (handleSddEnter event o) w = w
  \/ after (handleSddEnter event o) w = after (sendSddReply o) w.
Proof.
  assert (Hrun : handleSddEnter event o w
                 = if str_eqb (key event) (lit "Enter")
                      && negb (shiftKey event)
                      && negb (isSddGenerating w)
                   then (unawaited (sendSddReply o) ;; ret true) w
                   else (inr false, w)).
  { unfold handleSddEnter. unfold bind at 1. unfold get. cbv beta iota.
    destruct (str_eqb (key event) (lit "Enter") && negb (shiftKey event)
              && negb (isSddGenerating w));
      reflexivity. }
  change (after (handleSddEnter event o) w)
    with (snd (handleSddEnter event o w)).
  rewrite Hrun.
  destruct (str_eqb (key event) (lit "Enter") && negb (shiftKey event)
            && negb (isSddGenerating w));
    [| left; reflexivity].
  right. rewrite <- (after_unawaited (sendSddReply o) w).
  unfold after, bind, ret.
  destruct (unawaited (sendSddReply o) w) as [[e | u] w']; reflexivity.
Qed.

Lemma after_then_ret (A : Type) (c : M A) (w : World) :
  after (c ;; ret tt) w = after c w.
Proof.
  unfold after, bind, ret. destruct (c w) as [[e | a] w']; reflexivity.
Qed.

Lemma handle_at_rest (e : Event) (w : World) :
  at_rest w -> at_rest (after (handle e) w).
Proof.
  intros H. destruct e; cbn [handle].
  - destruct H as (Hk & Hl & Hs & Hg & Hp & Hd & Hi).
    repeat split; try assumption; from_initial Hi.
  - rewrite after_then_ret.
    destruct (handleEnter_after event reply w) as [E | [E | E]];
      rewrite E;
      [exact H | apply startConsultation_at_rest
      | apply sendMessage_at_rest]; exact H.
  - apply startConsultation_at_rest. exact H.
  - apply sendMessage_at_rest. exact H.
  - destruct H as (Hk & Hl & Hs & Hg & Hp & Hd & Hi).
    repeat split; try assumption; from_initial Hi.
  - apply finishAndGenerate_at_rest. exact H.
  - apply reset_at_rest. exact H.
  - destruct H as (Hk & Hl & Hs & Hg & Hp & Hd & Hi).
    repeat split; try assumption; from_initial Hi.
  - destruct H as (Hk & Hl & Hs & Hg & Hp & Hd & Hi).
    repeat split; try assumption; from_initial Hi.
  - apply generateSdd_at_rest. exact H.
  - destruct H as (Hk & Hl & Hs & Hg & Hp & Hd & Hi).
    repeat split; try assumption; from_initial Hi.
  - rewrite after_then_ret.
    destruct (handleSddEnter_after event reply w) as [E | E];
      rewrite E; [exact H | apply sendSddReply_at_rest; exact H].
  - apply sendSddReply_at_rest. exact H.
Qed.

Lemma run_events_at_rest (events : list Event) (w : World) :
  at_rest w -> at_rest (run_events events w).
Proof.
  revert w. induction events as [| e events IH]; intros w H;
    [exact H |].
  cbn. apply IH. apply handle_at_rest. exact H.
Qed.

End AtRest.

(** X5: in a session with a key, whatever the user does (typing, Enter,
    the buttons, removing pictures, generating, resetting) and however each
    request settles, the consultation is never left busy between two
    handlers and its history is made of whole exchanges, user then model:
    its length is even.  In the initial phase the history is empty and
    there is no chat session. *)
Theorem history_whole_between_events :
  forall (events : list Event) (w : World),
    at_rest w ->
    let w' := run_events events w in
    isChatLoading w' = false
    /\ state w' <> generating
    /\ well_paired (messages w') = true
    /\ Nat.even (List.length (messages w')) = true
    /\ (state w' = initial -> messages w' = [] /\ chatInstance w' = None).
Proof.
  intros events w H w'.
  destruct (run_events_at_rest events H) as (_ & Hl & _ & Hg & Hp & _ & Hi).
  repeat split; try assumption.
  - apply well_paired_even. exact Hp.
  - apply Hi. assumption.
  - apply Hi. assumption.
Qed.

Lemma keyed_world_at_rest : at_rest keyed_world.
Proof.
  repeat split; try reflexivity; discriminate.
Defined.

Lemma history_whole_between_events_witness :
  isChatLoading (run_events busy_afternoon keyed_world) = false
  /\ state (run_events busy_afternoon keyed_world) <> generating
  /\ well_paired (messages (run_events busy_afternoon keyed_world)) = true
  /\ Nat.even (List.length (messages (run_events busy_afternoon keyed_world)))
     = true
  /\ (state (run_events busy_afternoon keyed_world) = initial ->
      messages (run_events busy_afternoon keyed_world) = []
      /\ chatInstance (run_events busy_afternoon keyed_world) = None).
Proof.
  exact (@history_whole_between_events busy_afternoon keyed_world
           keyed_world_at_rest).
Defined.

(** X6: under the same conditions the SDD page is never left busy between
    two handlers and its history is the opening message of the model, when
    the first request was answered, followed by whole exchanges. *)
Theorem sdd_history_shape_between_events :
  forall (events : list Event) (w : World),
    at_rest w ->
    let w' := run_events events w in
    isSddGenerating w' = false
    /\ sdd_shaped (sddMessages w') = true.
Proof.
  intros events w H w'.
  destruct (run_events_at_rest events H) as (_ & _ & Hs & _ & _ & Hd & _).
  split; assumption.
Qed.

Lemma sdd_history_shape_between_events_witness :
  isSddGenerating (run_events busy_afternoon keyed_world) = false
  /\ sdd_shaped (sddMessages (run_events busy_afternoon keyed_world)) = true.
Proof.
  exact (@sdd_history_shape_between_events busy_afternoon keyed_world
           keyed_world_at_rest).
Defined.

(* ------------------------------------------------------------------ *)
(** *** What a send takes from the input box *)

Lemma inline_data_parts (first : list Part) (imgs : list ImageAttachment) :
  (forall p, In p first -> exists t, p = TextPart t) ->
  inline_data (Parts (first ++ List.map inline imgs))
  = List.map (fun i => (mimeType i, data i)) imgs.
Proof.
  intros Hfirst. cbn. rewrite flat_map_app.
  replace (flat_map _ first) with (@nil (jsstring * jsstring)).
  - cbn. induction imgs as [| i imgs IH]; [reflexivity |].
    cbn. rewrite IH. reflexivity.
  - induction first as [| p first IH]; [reflexivity |].
    destruct (Hfirst p (or_introl eq_refl)) as [t ->]. cbn.
    apply IH. intros q Hq. apply Hfirst. right. exact Hq.
Qed.

Lemma texts_parts (first : list Part) (imgs : list ImageAttachment) :
  texts (Parts (first ++ List.map inline imgs))
  = texts (Parts first).
Proof.
  cbn. rewrite flat_map_app.
  replace (flat_map _ (List.map inline imgs)) with (@nil jsstring);
    [apply app_nil_r |].
  induction imgs as [| i imgs IH]; [reflexivity | exact IH].
Qed.

(** X8: a chat send empties the input box and the pending attachments
    whether the request is answered or not, and the one request it makes
    carries every pending picture, in order, with its mimeType and data.
    Without pictures the message is the typed text as it stands.  With
    pictures the message is a list of parts: the typed text first, then
    one inline part per picture; when nothing was typed
    [startConsultation] puts its stock instruction in first place where
    [sendMessage] sends the pictures alone. *)
Theorem send_clears_inputs_and_forwards :
  forall (e : Send) (w : World) (o : Outcome),
    e <> SendSddReply ->
    sends e w = true ->
    let w' := after (run e o) w in
    let pictures :=
      List.map (fun i => InlineData (mimeType i) (data i))
        (selectedImages w) in
    userInput w' = []
    /\ selectedImages w' = []
    /\ exists c content,
         requests w' = requests w ++ [ChatSend c content]
         /\ (e = SendMessage -> chatInstance w = Some c)
         /\ inline_data content
            = List.map (fun i => (mimeType i, data i)) (selectedImages w)
         /\ (selectedImages w = [] -> content = Text (userInput w))
         /\ (userInput w <> [] -> texts content = [userInput w])
         /\ (userInput w = [] ->
             texts content
             = match e with
               | StartConsultation => [analyse_images]
               | _ => []
               end)
         /\ (selectedImages w <> [] -> userInput w <> [] ->
             content = Parts (TextPart (userInput w) :: pictures))
         /\ (selectedImages w <> [] -> userInput w = [] ->
             content
             = match e with
               | StartConsultation =>
                   Parts (TextPart analyse_images :: pictures)
               | _ => Parts pictures
               end).
Proof.
  intros e w o He Hsends w' pictures. subst w' pictures.
  destruct e; [| | contradiction]; cbn in Hsends;
    apply andb_true_iff in Hsends as [Hg Hs];
    apply negb_true_iff in Hg; cbn [run].
  - destruct (ai w) as [k |] eqn:Hk; [| discriminate].
    unfold_prog. rewrite Hg. cbn. rewrite Hk. cbn.
    destruct (selectedImages w) as [| i imgs] eqn:Hi.
    + assert (Hu : userInput w <> []).
      { intros Hu. unfold nothing_to_send in Hg.
        rewrite Hu, Hi in Hg. discriminate. }
      destruct o; cbn; (split; [reflexivity |]); (split; [reflexivity |]);
        do 2 eexists; (split; [reflexivity |]);
        (split; [discriminate |]); (split; [reflexivity |]);
        (split; [reflexivity |]); (split; [reflexivity |]);
        (split; [intros Hx; contradiction |]);
        (split; intros Hx; contradiction).
    + assert (Hparts : forall first,
                (forall p, In p [first] -> exists t, p = TextPart t) ->
                inline_data (Parts (first :: List.map inline (i :: imgs)))
                = List.map (fun i => (mimeType i, data i)) (i :: imgs)).
      { intros first Hf.
        exact (@inline_data_parts [first] (i :: imgs) Hf). }
      destruct (userInput w) as [| ch typed] eqn:Hu;
        destruct o; cbn; (split; [reflexivity |]); (split; [reflexivity |]);
        do 2 eexists; (split; [reflexivity |]);
        (split; [discriminate |]);
        (split; [apply Hparts; intros p [<- | []]; eexists; reflexivity |]);
        (split; [discriminate |]);
        (split; [intros Hx; first [contradiction
                                  | exact (@texts_parts [_] (i :: imgs))] |]);
        (split; [intros Hx; first [discriminate
                                  | exact (@texts_parts [_] (i :: imgs))] |]);
        (split; [intros _ Hx; first [contradiction | reflexivity] |]);
        intros _ Hx; first [discriminate | reflexivity].
  - destruct (chatInstance w) as [c |] eqn:Hc; [| discriminate].
    unfold_prog. rewrite Hc, Hg. cbn.
    destruct (selectedImages w) as [| i imgs] eqn:Hi.
    + assert (Hu : userInput w <> []).
      { intros Hu. unfold nothing_to_send in Hg.
        rewrite Hu, Hi in Hg. discriminate. }
      destruct o; cbn; (split; [reflexivity |]); (split; [reflexivity |]);
        do 2 eexists; (split; [reflexivity |]);
        (split; [reflexivity |]); (split; [reflexivity |]);
        (split; [reflexivity |]); (split; [reflexivity |]);
        (split; [intros Hx; contradiction |]);
        (split; intros Hx; contradiction).
    + destruct (userInput w) as [| ch typed] eqn:Hu;
        destruct o; cbn; (split; [reflexivity |]); (split; [reflexivity |]);
        do 2 eexists; (split; [reflexivity |]);
        (split; [reflexivity |]).
      * split; [exact (@inline_data_parts [] (i :: imgs)
                         (fun p (H : In p []) => match H with end)) |].
        split; [discriminate |]. split; [contradiction |].
        split; [intros _; exact (@texts_parts [] (i :: imgs)) |].
        split; [intros _ Hx; contradiction | reflexivity].
      * split; [exact (@inline_data_parts [] (i :: imgs)
                         (fun p (H : In p []) => match H with end)) |].
        split; [discriminate |]. split; [contradiction |].
        split; [intros _; exact (@texts_parts [] (i :: imgs)) |].
        split; [intros _ Hx; contradiction | reflexivity].
      * split; [apply (@inline_data_parts [TextPart (ch :: typed)]
                         (i :: imgs));
                intros p [<- | []]; eexists; reflexivity |].
        split; [discriminate |].
        split; [intros _;
                exact (@texts_parts [TextPart (ch :: typed)] (i :: imgs)) |].
        split; [discriminate |].
        split; [reflexivity | discriminate].
      * split; [apply (@inline_data_parts [TextPart (ch :: typed)]
                         (i :: imgs));
                intros p [<- | []]; eexists; reflexivity |].
        split; [discriminate |].
        split; [intros _;
                exact (@texts_parts [TextPart (ch :: typed)] (i :: imgs)) |].
        split; [discriminate |].
        split; [reflexivity | discriminate].
Qed.

Lemma send_clears_inputs_and_forwards_witness :
  userInput (after (run StartConsultation Rejects) captioned_world) = []
  /\ selectedImages (after (run StartConsultation Rejects) captioned_world)
     = []
  /\ exists c content,
       requests (after (run StartConsultation Rejects) captioned_world)
       = requests captioned_world ++ [ChatSend c content]
       /\ (StartConsultation = SendMessage ->
           chatInstance captioned_world = Some c)
       /\ inline_data content
          = List.map (fun i => (mimeType i, data i))
              (selectedImages captioned_world)
       /\ (selectedImages captioned_world = [] ->
           content = Text (userInput captioned_world))
       /\ (userInput captioned_world <> [] ->
           texts content = [userInput captioned_world])
       /\ (userInput captioned_world = [] ->
           texts content = [analyse_images])
       /\ (selectedImages captioned_world <> [] ->
           userInput captioned_world <> [] ->
           content
           = Parts (TextPart (userInput captioned_world)
                      :: List.map (fun i => InlineData (mimeType i) (data i))
                           (selectedImages captioned_world)))
       /\ (selectedImages captioned_world <> [] ->
           userInput captioned_world = [] ->
           content
           = Parts (TextPart analyse_images
                      :: List.map (fun i => InlineData (mimeType i) (data i))
                           (selectedImages captioned_world))).
Proof.
  exact (@send_clears_inputs_and_forwards StartConsultation captioned_world
           Rejects ltac:(discriminate) eq_refl).
Defined.

(* ------------------------------------------------------------------ *)
(** *** Generating again *)

(** X9: a failed generation costs nothing but the alert.  The conversation
    (history, chat session, input box, pending pictures) is as it was, and
    a second run whose two requests are answered ends in the [finished]
    phase with the artifacts of that run, sending the same transcript as
    the first. *)
Theorem generation_can_be_retried :
  forall (w : World) (k : ApiClient) (prdReply umlReply : Outcome)
         (t u : option jsstring),
    ai w = Some k ->
    generation_fails w prdReply umlReply ->
    let w1 := after (finishAndGenerate prdReply umlReply) w in
    let w2 := after (finishAndGenerate (Resolves t) (Resolves u)) w1 in
    (messages w1 = messages w /\ chatInstance w1 = chatInstance w
     /\ userInput w1 = userInput w /\ selectedImages w1 = selectedImages w)
    /\ state w2 = finished
    /\ prdContent w2 = cleanMarkdown (or_else t (lit "# Error Generating PRD"))
    /\ plantUmlCode w2 = extractPlantUML (or_else u [])
    /\ alerts w2 = alerts w ++ [generation_failed]
    /\ messages w2 = messages w
    /\ requests w2
       = requests w1
         ++ [GenerateContent
               (PrdPrompt (transcript (messages w)) (targetPlatform w));
             GenerateContent
               (PlantUmlPrompt (transcript (messages w)) (targetPlatform w))].
Proof.
  intros w k prdReply umlReply t u Hk Hfail w1 w2. subst w1 w2.
  destruct prdReply as [| t0].
  - unfold_prog. cbn. repeat (rewrite Hk; cbn).
    rewrite <- app_assoc. repeat split; reflexivity.
  - destruct umlReply as [| u0].
    + unfold_prog. cbn. repeat (rewrite Hk; cbn).
      rewrite <- !app_assoc. repeat split; reflexivity.
    + destruct Hfail as [H | [H | H]]; congruence.
Qed.

Lemma generation_can_be_retried_witness :
  state (after (finishAndGenerate (Resolves (Some (lit "# PRD")))
                  (Resolves (Some sample_source)))
           (after (finishAndGenerate Rejects Rejects) consulting_world))
  = finished.
Proof.
  exact (proj1 (proj2 (@generation_can_be_retried consulting_world
           {| client_key := lit "user-key" |} Rejects Rejects
           (Some (lit "# PRD")) (Some sample_source) eq_refl
           (or_intror (or_introl eq_refl))))).
Defined.

(** X17: an answer without text is not a failure.  When both requests of
    [finishAndGenerate] are answered with no text, the phase is [finished]
    and no alert is shown; the PRD is the heading "# Error Generating PRD"
    and the diagram source is empty, so that the diagram URL is empty
    too. *)
Theorem empty_answers_finish_silently :
  forall (w : World) (k : ApiClient) (t u : option jsstring),
    ai w = Some k ->
    or_else t [] = [] ->
    or_else u [] = [] ->
    let w' := after (finishAndGenerate (Resolves t) (Resolves u)) w in
    state w' = finished
    /\ alerts w' = alerts w
    /\ prdContent w' = lit "# Error Generating PRD"
    /\ plantUmlCode w' = []
    /\ (forall encode deflate, diagramUrl encode deflate w' = []).
Proof.
  intros w k t u Hk Ht Hu w'. subst w'.
  assert (Et : or_else t (lit "# Error Generating PRD")
               = lit "# Error Generating PRD").
  { destruct t as [[| c r] |]; [reflexivity | discriminate | reflexivity]. }
  unfold_prog. cbn. repeat (rewrite Hk; cbn).
  change (or_else t _) with (or_else t (lit "# Error Generating PRD")).
  rewrite Et, Hu.
  repeat split; reflexivity.
Qed.

Lemma empty_answers_finish_silently_witness :
  state (after (finishAndGenerate (Resolves None) (Resolves (Some [])))
           consulting_world) = finished
  /\ alerts (after (finishAndGenerate (Resolves None) (Resolves (Some [])))
               consulting_world) = alerts consulting_world.
Proof.
  pose proof (@empty_answers_finish_silently consulting_world
                {| client_key := lit "user-key" |} None (Some [])
                eq_refl eq_refl eq_refl) as H.
  split; [apply H |]. apply H.
Defined.

(* ------------------------------------------------------------------ *)
(** *** Starting over *)

Section StartingOver.

(** The chat entry points leave the generated artifacts alone. *)
Lemma chat_keeps_artifacts (o : Outcome) (w : World) :
  (prdContent (after (startConsultation o) w) = prdContent w
   /\ plantUmlCode (after (startConsultation o) w) = plantUmlCode w)
  /\ (prdContent (after (sendMessage o) w) = prdContent w
      /\ plantUmlCode (after (sendMessage o) w) = plantUmlCode w).
Proof.
  split.
  - unfold_prog. destruct (nothing_to_send w); cbn; [split; reflexivity |].
    destruct (ai w); cbn; [| split; reflexivity].
    destruct (List.length (selectedImages w)), o; split; reflexivity.
  - unfold_prog. destruct (chatInstance w); cbn; [| split; reflexivity].
    destruct (nothing_to_send w); cbn; [split; reflexivity |].
    destruct (List.length (selectedImages w)), o; split; reflexivity.
Qed.

Lemma follow_up_keeps_artifacts (turns : list Turn) (w : World) :
  prdContent (after (follow_up turns) w) = prdContent w
  /\ plantUmlCode (after (follow_up turns) w) = plantUmlCode w.
Proof.
  revert w. induction turns as [| t rest IH]; intros w;
    [split; reflexivity |].
  set (w0 := after (compose (typed t) (attached t)) w).
  pose proof (proj2 (chat_keeps_artifacts (Resolves (answer t)) w0))
    as [Hp Hu].
  unfold after in Hp, Hu |- *.
  change (follow_up (t :: rest) w)
    with (match sendMessage (Resolves (answer t)) w0 with
          | (inr _, w') => follow_up rest w'
          | (inl e, w') => (inl e, w')
          end).
  destruct (sendMessage (Resolves (answer t)) w0) as [[e | u] w1];
    cbn [snd] in *.
  - split; [rewrite Hp | rewrite Hu]; reflexivity.
  - destruct (IH w1) as [Hp1 Hu1]. unfold after in Hp1, Hu1.
    rewrite Hp1, Hu1, Hp, Hu. split; reflexivity.
Qed.

(** A consultation on an empty history, and what it leaves alone. *)
Lemma consultation_from_empty (turns : list Turn) (r : World)
      (k : ApiClient) :
  ai r = Some k ->
  messages r = [] ->
  forallb sendable turns = true ->
  messages (after (consultation turns) r) = flat_map exchange turns
  /\ prdContent (after (consultation turns) r) = prdContent r
  /\ plantUmlCode (after (consultation turns) r) = plantUmlCode r.
Proof.
  intros Hk Hfresh Hall. destruct turns as [| t rest].
  - repeat split. exact Hfresh.
  - cbn in Hall. apply andb_true_iff in Hall as [Ht Hrest].
    set (w0 := after (compose (typed t) (attached t)) r).
    destruct (@startConsultation_answered w0 k (answer t) Hk
                (compose_sendable t r Ht))
      as (w1 & c & Hrun & Hmsgs & Hc1 & _).
    assert (Hstep : consultation (t :: rest) r = follow_up rest w1).
    { change (consultation (t :: rest) r)
        with (match startConsultation (Resolves (answer t)) w0 with
              | (inr _, w') => follow_up rest w'
              | (inl e, w') => (inl e, w')
              end).
      rewrite Hrun. reflexivity. }
    pose proof (proj1 (chat_keeps_artifacts (Resolves (answer t)) w0))
      as [Hp0 Hu0].
    unfold after in Hp0, Hu0. rewrite Hrun in Hp0, Hu0.
    cbn [snd] in Hp0, Hu0.
    destruct (@follow_up_answered rest w1 c Hc1 Hrest) as [_ Hm].
    destruct (follow_up_keeps_artifacts rest w1) as [Hp1 Hu1].
    unfold after in Hm, Hp1, Hu1 |- *. rewrite Hstep.
    repeat split.
    + rewrite Hm, Hmsgs. cbn. rewrite Hfresh. reflexivity.
    + rewrite Hp1, Hp0. reflexivity.
    + rewrite Hu1, Hu0. reflexivity.
Qed.

End StartingOver.

(** X10: [reset] followed by a new consultation shows that consultation
    only.  From any page of a session with a key, after [reset] and [n]
    answered turns the history holds exactly the [n] new exchanges, and
    the PRD and the diagram source of the earlier run are gone. *)
Theorem reset_then_consultation :
  forall (turns : list Turn) (w : World) (k : ApiClient),
    ai w = Some k ->
    forallb sendable turns = true ->
    let w' := after (consultation turns) (after reset w) in
    messages w' = flat_map exchange turns
    /\ prdContent w' = []
    /\ plantUmlCode w' = [].
Proof.
  intros turns w k Hk Hall w'. subst w'.
  destruct (@consultation_from_empty turns (after reset w) k Hk eq_refl Hall)
    as (Hm & Hp & Hu).
  split; [exact Hm |]. split; [rewrite Hp | rewrite Hu]; reflexivity.
Qed.

Lemma reset_then_consultation_witness :
  messages (after (consultation two_turns) (after reset stale_world))
  = flat_map exchange two_turns
  /\ prdContent (after (consultation two_turns) (after reset stale_world))
     = []
  /\ plantUmlCode (after (consultation two_turns) (after reset stale_world))
     = [].
Proof.
  exact (@reset_then_consultation two_turns stale_world
           {| client_key := lit "user-key" |} eq_refl eq_refl).
Defined.

(* ------------------------------------------------------------------ *)
(** *** The SDD offered for download *)

Lemma sendSddReply_step (o : Outcome) (w : World) (c : Chat) :
  sddChatInstance w = Some c ->
  blank (sddReplyInput w) = false ->
  exists w1,
    sendSddReply o w = (inr tt, w1)
    /\ sddChatInstance w1 = Some c
    /\ sddResult w1
       = match o with
         | Resolves x => cleanMarkdown (or_else x [])
         | Rejects => sddResult w
         end
    /\ List.length (sddMessages w1) = List.length (sddMessages w) + 2
    /\ isSddGenerating w1 = false.
Proof.
  intros Hc Hg. unfold_prog. rewrite Hc, Hg. cbn.
  destruct o; cbn; eexists; (split; [reflexivity |]); cbn;
    rewrite <- app_assoc, length_app; repeat split; assumption.
Qed.

(** X16: the SDD offered for download follows the answers.  After a run
    of replies on the SDD chat, [sddResult] is the cleaned text of the
    last reply that was answered, or what it was before when none was: a
    rejected reply changes the history (by two messages, like every
    reply) but never the download. *)
Theorem sdd_result_tracks_last_answer :
  forall (turns : list SddTurn) (w : World) (c : Chat),
    sddChatInstance w = Some c ->
    forallb (fun t => negb (blank (sdd_typed t))) turns = true ->
    let w' := after (sdd_replies turns) w in
    settles (sdd_replies turns) w = inr tt
    /\ sddResult w' = last_answered (sddResult w) turns
    /\ List.length (sddMessages w')
       = List.length (sddMessages w) + 2 * List.length turns.
Proof.
  induction turns as [| t rest IH]; intros w c Hc Hall w'; subst w'.
  - cbn. repeat split; lia.
  - cbn in Hall. apply andb_true_iff in Hall as [Ht Hrest].
    apply negb_true_iff in Ht.
    set (w0 := set_sddReplyInput (sdd_typed t) w).
    destruct (@sendSddReply_step (sdd_outcome t) w0 c Hc Ht)
      as (w1 & Hrun & Hc1 & Hres & Hlen & _).
    assert (Hstep : sdd_replies (t :: rest) w = sdd_replies rest w1).
    { change (sdd_replies (t :: rest) w)
        with (match sendSddReply (sdd_outcome t) w0 with
              | (inr _, w') => sdd_replies rest w'
              | (inl e, w') => (inl e, w')
              end).
      rewrite Hrun. reflexivity. }
    destruct (IH w1 c Hc1 Hrest) as (Hs & Hr & Hl).
    unfold settles, after in *. rewrite Hstep.
    split; [exact Hs |]. split.
    + rewrite Hr, Hres. cbn [last_answered fold_left].
      destruct (sdd_outcome t); reflexivity.
    + rewrite Hl, Hlen. cbn [List.length]. change (sddMessages w0)
        with (sddMessages w). lia.
Qed.

Lemma sdd_result_tracks_last_answer_witness :
  settles (sdd_replies two_replies) sdd_chat_world = inr tt
  /\ sddResult (after (sdd_replies two_replies) sdd_chat_world)
     = lit "## Design v2"
  /\ List.length (sddMessages (after (sdd_replies two_replies)
                                 sdd_chat_world))
     = 1 + 2 * 2.
Proof.
  exact (@sdd_result_tracks_last_answer two_replies sdd_chat_world
           {| systemInstruction := ARCHITECT_INSTRUCTION;
              temperature := (5 # 10)%Q |} eq_refl eq_refl).
Defined.

(* ------------------------------------------------------------------ *)
(** *** The API key form *)

(** X11: [submitApiKey] ignores a key that is empty or all white space:
    the page, and with it the service, stays as it was.  Any other key is
    handed to the service trimmed, [isApiKeySet] becomes true and sessions
    can be created, without anything being sent.  [clearApiKey] empties
    the form and lowers the flag but does not take the key back from the
    service: sessions can still be created. *)
Theorem submitApiKey_hands_over_trimmed_key :
  forall (p : Page),
    (blank (apiKey p) = true -> submitApiKey p = p)
    /\ (blank (apiKey p) = false ->
        let p' := submitApiKey p in
        ai (world p') = Some {| client_key := trim (apiKey p) |}
        /\ trimmed (trim (apiKey p))
        /\ trim (apiKey p) <> []
        /\ isApiKeySet p' = true
        /\ requests (world p') = requests (world p)
        /\ (exists c, createChat (world p') = (inr c, world p'))
        /\ isApiKeySet (clearApiKey p') = false
        /\ apiKey (clearApiKey p') = []
        /\ (exists c,
              createChat (world (clearApiKey p'))
              = (inr c, world (clearApiKey p')))).
Proof.
  intros p. unfold submitApiKey, blank.
  destruct (trim (apiKey p)) as [| c r] eqn:E; cbn [truthy].
  - split; [reflexivity | discriminate].
  - split; [discriminate |]. intros _. cbv zeta.
    split; [reflexivity |].
    split; [rewrite <- E; apply trim_trimmed |].
    split; [discriminate |].
    repeat split; eexists; reflexivity.
Qed.

Lemma submitApiKey_hands_over_trimmed_key_witness :
  submitApiKey {| world := initial_world; apiKey := lit "  ";
                  isApiKeySet := false |}
  = {| world := initial_world; apiKey := lit "  "; isApiKeySet := false |}
  /\ ai (world (submitApiKey {| world := initial_world;
                               apiKey := lit " user-key ";
                               isApiKeySet := false |}))
     = Some {| client_key := trim (lit " user-key ") |}.
Proof.
  split.
  - exact (proj1 (submitApiKey_hands_over_trimmed_key
             {| world := initial_world; apiKey := lit "  ";
                isApiKeySet := false |}) eq_refl).
  - exact (proj1 (proj2 (submitApiKey_hands_over_trimmed_key
             {| world := initial_world; apiKey := lit " user-key ";
                isApiKeySet := false |}) eq_refl)).
Defined.

(* ------------------------------------------------------------------ *)
(** *** The address of the diagram *)

Section Address.

Variable encode : jsstring -> list Byte.byte.
Variable deflate : list Byte.byte -> option (list Byte.byte).

(** The URL of a source that compresses. *)
Lemma toDiagramURL_of_stream (code : jsstring) (z : list Byte.byte) :
  code <> [] ->
  deflate (encode code) = Some z ->
  toDiagramURL encode deflate code
  = kroki_svg ++ List.map url_safe (b64_groups (binary_of z)).
Proof.
  intros Hcode Hz. unfold toDiagramURL.
  destruct code as [| c code]; [contradiction |].
  cbn [truthy]. rewrite Hz, btoa_binary_of, replace_all_twice. reflexivity.
Qed.

Lemma length_b64_groups (bin : list N) :
  List.length (b64_groups bin) = 4 * ((List.length bin + 2) / 3).
Proof.
  induction bin as [| a | a b | a b c rest IH] using octets_ind;
    try reflexivity.
  cbn [b64_groups List.length]. rewrite IH.
  replace (S (S (S (List.length rest))) + 2)
    with ((List.length rest + 2) + 1 * 3) by lia.
  rewrite Nat.div_add by discriminate. lia.
Qed.

(** Only the address holds "/svg/". *)
Lemma png_address (payload : jsstring) :
  replace_first (lit "/svg/") (lit "/png/") (kroki_svg ++ payload)
  = kroki_png ++ payload.
Proof. reflexivity. Qed.

End Address.

(** X13: the diagram URL is empty exactly when there is nothing to show:
    the source is empty or the compression failed.  Otherwise it is the
    30 characters of the viewer's address followed by four characters for
    every three bytes of the compressed source, rounded up. *)
Theorem diagram_url_empty_iff :
  forall (encode : jsstring -> list Byte.byte)
         (deflate : list Byte.byte -> option (list Byte.byte))
         (code : jsstring),
    (toDiagramURL encode deflate code = []
     <-> code = [] \/ deflate (encode code) = None)
    /\ (forall z,
          code <> [] ->
          deflate (encode code) = Some z ->
          List.length (toDiagramURL encode deflate code)
          = 30 + 4 * ((List.length z + 2) / 3)).
Proof.
  intros encode deflate code. split.
  - split.
    + intros H. destruct code as [| c code]; [left; reflexivity |].
      destruct (deflate (encode (c :: code))) as [z |] eqn:Hz;
        [| right; reflexivity].
      rewrite (@toDiagramURL_of_stream encode deflate (c :: code) z) in H
        by (discriminate || exact Hz).
      discriminate H.
    + intros [-> | H]; [reflexivity |].
      unfold toDiagramURL. rewrite H. destruct (truthy code); reflexivity.
  - intros z Hcode Hz.
    rewrite (@toDiagramURL_of_stream encode deflate code z Hcode Hz).
    rewrite length_app, length_map, length_b64_groups.
    unfold binary_of. rewrite length_map. reflexivity.
Qed.

Lemma diagram_url_empty_iff_witness :
  List.length (toDiagramURL ascii_bytes sample_deflate sample_source)
  = 30 + 4 * ((30 + 2) / 3).
Proof.
  exact (proj2 (diagram_url_empty_iff ascii_bytes sample_deflate
                  sample_source) sample_stream ltac:(discriminate) eq_refl).
Defined.

(** X12: [downloadDiagram] asks for the PNG of the very diagram on
    display: the address it fetches, or opens in a tab when the fetch
    fails, is the diagram URL with "/svg/" turned into "/png/" in the
    viewer's address and the encoded source untouched.  With no diagram
    to show it does nothing. *)
Theorem download_fetches_png_of_same_source :
  forall (encode : jsstring -> list Byte.byte)
         (deflate : list Byte.byte -> option (list Byte.byte))
         (fetched : bool) (w : World),
    (forall z,
       plantUmlCode w <> [] ->
       deflate (encode (plantUmlCode w)) = Some z ->
       exists payload,
         diagramUrl encode deflate w = kroki_svg ++ payload
         /\ downloadDiagram encode deflate fetched w
            = if fetched then SavedPng (kroki_png ++ payload)
              else OpenedTab (kroki_png ++ payload))
    /\ (plantUmlCode w = [] \/ deflate (encode (plantUmlCode w)) = None ->
        downloadDiagram encode deflate fetched w = NothingToSave).
Proof.
  intros encode deflate fetched w. split.
  - intros z Hcode Hz.
    exists (List.map url_safe (b64_groups (binary_of z))).
    unfold downloadDiagram, diagramUrl.
    rewrite (@toDiagramURL_of_stream encode deflate (plantUmlCode w) z
               Hcode Hz).
    split; [reflexivity |].
    change (truthy (kroki_svg ++ _)) with true. cbv iota.
    rewrite png_address. reflexivity.
  - intros H. unfold downloadDiagram, diagramUrl, toDiagramURL.
    destruct H as [-> | ->]; [reflexivity |].
    destruct (truthy (plantUmlCode w)); reflexivity.
Qed.

Lemma download_fetches_png_of_same_source_witness :
  downloadDiagram ascii_bytes sample_deflate true finished_world
  = SavedPng (kroki_png ++ lit "eNpzKC5JLCopzc3hclTQtVNw4nJIzUsBcgFi-gfE")
  /\ downloadDiagram ascii_bytes sample_deflate false initial_world
     = NothingToSave.
Proof.
  split.
  - destruct (proj1 (download_fetches_png_of_same_source ascii_bytes
                       sample_deflate true finished_world)
                sample_stream ltac:(discriminate) eq_refl)
      as (payload & Hurl & Hsave).
    rewrite Hsave. f_equal. f_equal.
    apply (app_inv_head kroki_svg). rewrite <- Hurl. reflexivity.
  - exact (proj2 (download_fetches_png_of_same_source ascii_bytes
                    sample_deflate false initial_world)
                 (or_introl eq_refl)).
Defined.

(* ------------------------------------------------------------------ *)
(** *** Picking and pasting pictures *)

Section Pictures.

Local Open Scope N_scope.

Lemma split_on_no_sep (sep : N) (s : jsstring) :
  ~ In sep s -> split_on sep s = [s].
Proof.
  induction s as [| c s IH]; intros H; [reflexivity |].
  cbn. destruct (N.eqb_spec c sep) as [E | _].
  - exfalso. apply H. left. exact E.
  - rewrite IH; [reflexivity |]. intros Hin. apply H. right. exact Hin.
Qed.

Lemma split_on_first (sep : N) (a b : jsstring) :
  ~ In sep a -> split_on sep (a ++ sep :: b) = a :: split_on sep b.
Proof.
  induction a as [| c a IH]; intros H.
  - cbn. rewrite N.eqb_refl. reflexivity.
  - cbn. destruct (N.eqb_spec c sep) as [E | _].
    + exfalso. apply H. left. exact E.
    + rewrite IH; [reflexivity |]. intros Hin. apply H. right. exact Hin.
Qed.

Lemma fire_appends (completed : list (File * jsstring)) (w : World) :
  exists w',
    fire completed w = (inr tt, w')
    /\ selectedImages w'
       = selectedImages w
         ++ List.map (fun r => attachment (fst r) (snd r)) completed
    /\ messages w' = messages w
    /\ userInput w' = userInput w.
Proof.
  revert w. induction completed as [| r rest IH]; intros w.
  - exists w. rewrite app_nil_r. repeat split.
  - destruct (IH (after (onload r) w)) as (w' & Hrun & Himgs & Hm & Hu).
    exists w'. split; [exact Hrun |].
    split; [| split; assumption].
    rewrite Himgs. cbn. rewrite <- app_assoc. reflexivity.
Qed.

Lemma processFileArray_In (files : list File) (f : File) (url : jsstring) :
  In (f, url) (processFileArray files)
  <-> In f files /\ is_image f = true /\ file_read f = Some url.
Proof.
  unfold processFileArray. rewrite in_flat_map. split.
  - intros (g & Hg & Hin).
    destruct (is_image g) eqn:Hi; [| contradiction].
    destruct (file_read g) as [u |] eqn:Hr; [| contradiction].
    destruct Hin as [E | []]. injection E as -> ->.
    repeat split; assumption.
  - intros (Hin & Hi & Hr). exists f. split; [exact Hin |].
    rewrite Hi, Hr. left. reflexivity.
Qed.

(** A type that starts with "image/" holds "image". *)
Lemma image_type_holds_image (t : jsstring) :
  starts_with same (lit "image/") t = true ->
  contains (lit "image") t = true.
Proof.
  intros H. change (lit "image/") with (lit "image" ++ [47]) in H.
  apply starts_with_shorter in H.
  destruct t as [| c t]; cbn [contains]; rewrite H; reflexivity.
Qed.

(** When the items carry the type of their file, the test of [handlePaste]
    drops no file that [processFileArray] would keep. *)
Lemma paste_test_drops_no_picture (items : list ClipboardItem) :
  (forall it f,
     In it items -> getAsFile it = Some f -> item_type it = file_type f) ->
  processFileArray (pasted_files items)
  = processFileArray
      (flat_map (fun it => match getAsFile it with
                           | Some f => [f]
                           | None => []
                           end) items).
Proof.
  assert (Happ : forall a b,
            processFileArray (a ++ b)
            = processFileArray a ++ processFileArray b)
    by (intros a b; apply flat_map_app).
  induction items as [| it items IH]; intros Hsame; [reflexivity |].
  change (pasted_files (it :: items))
    with ((if contains (lit "image") (item_type it)
           then match getAsFile it with Some f => [f] | None => [] end
           else []) ++ pasted_files items).
  cbn [flat_map]. rewrite !Happ.
  rewrite IH by (intros it' f' Hin; apply Hsame; right; exact Hin).
  f_equal.
  destruct (getAsFile it) as [f |] eqn:Hf;
    [| destruct (contains (lit "image") (item_type it)); reflexivity].
  destruct (contains (lit "image") (item_type it)) eqn:Hc;
    [reflexivity |].
  unfold processFileArray. cbn [flat_map].
  destruct (is_image f) eqn:Hi; [| reflexivity].
  unfold is_image in Hi. apply image_type_holds_image in Hi.
  rewrite <- (Hsame it f (or_introl eq_refl) Hf), Hc in Hi.
  discriminate.
Qed.

End Pictures.

(** X14: the pictures picked in one go end up in the pending attachments
    whatever the order in which their reads complete.  Every file whose
    type starts with "image/" and whose read succeeds is appended exactly
    once, after the attachments already there, with the file's type as
    mimeType; files of another type are dropped without a word; the
    history and the input box are not touched. *)
Theorem picked_pictures_are_appended :
  forall (files : list File) (completed : list (File * jsstring))
         (w : World),
    Permutation completed (processFileArray files) ->
    let w' := after (fire completed) w in
    let added := List.map (fun r => attachment (fst r) (snd r)) completed in
    settles (fire completed) w = inr tt
    /\ selectedImages w' = selectedImages w ++ added
    /\ Permutation added
         (List.map (fun r => attachment (fst r) (snd r))
            (processFileArray files))
    /\ (forall f url,
          In (f, url) completed
          <-> In f files /\ is_image f = true /\ file_read f = Some url)
    /\ Forall (fun a => starts_with same (lit "image/") (mimeType a) = true)
         added
    /\ messages w' = messages w
    /\ userInput w' = userInput w.
Proof.
  intros files completed w Hperm w' added. subst w' added.
  destruct (fire_appends completed w) as (w' & Hrun & Himgs & Hm & Hu).
  unfold settles, after. rewrite Hrun. cbn [fst snd].
  split; [reflexivity |]. split; [exact Himgs |].
  split; [apply Permutation_map; exact Hperm |].
  assert (Hin : forall f url,
            In (f, url) completed
            <-> In f files /\ is_image f = true /\ file_read f = Some url).
  { intros f url. rewrite <- processFileArray_In. split; intros H.
    - exact (Permutation_in _ Hperm H).
    - exact (Permutation_in _ (Permutation_sym Hperm) H). }
  split; [exact Hin |].
  split; [| split; assumption].
  apply Forall_forall. intros a Ha.
  apply in_map_iff in Ha as ([f url] & <- & Hr).
  apply Hin in Hr. apply Hr.
Qed.

Lemma picked_pictures_are_appended_witness :
  selectedImages (after (fire [(jpeg_file, lit "data:image/jpeg;base64,/9j/4AAQ");
                               (png_file, lit "data:image/png;base64,iVBORw0KGgo=")])
                    picture_world)
  = selectedImages picture_world
    ++ [attachment jpeg_file (lit "data:image/jpeg;base64,/9j/4AAQ");
        attachment png_file (lit "data:image/png;base64,iVBORw0KGgo=")].
Proof.
  refine (proj1 (proj2 (@picked_pictures_are_appended
            [png_file; text_file; jpeg_file]
            [(jpeg_file, lit "data:image/jpeg;base64,/9j/4AAQ");
             (png_file, lit "data:image/png;base64,iVBORw0KGgo=")]
            picture_world _))).
  apply perm_swap.
Defined.

(** X18: the data of an attachment is the payload of its data URL.  For a
    read result made of a header without comma, a comma and a payload
    without comma, [data] is the payload, [url] the whole result and
    [mimeType] the type of the file. *)
Theorem attachment_data_is_payload :
  forall (f : File) (header payload : jsstring),
    ~ In 44%N header ->
    ~ In 44%N payload ->
    let a := attachment f (header ++ [44%N] ++ payload) in
    data a = payload
    /\ url a = header ++ [44%N] ++ payload
    /\ mimeType a = file_type f.
Proof.
  intros f header payload Hh Hp a. subst a.
  unfold attachment, base64_of. cbn [data url mimeType].
  change (header ++ [44%N] ++ payload) with (header ++ 44%N :: payload).
  rewrite (@split_on_first 44%N header payload Hh),
    (@split_on_no_sep 44%N payload Hp).
  repeat split.
Qed.

Lemma attachment_data_is_payload_witness :
  data (attachment png_file
          (lit "data:image/png;base64" ++ [44%N] ++ lit "iVBORw0KGgo="))
  = lit "iVBORw0KGgo=".
Proof.
  refine (proj1 (@attachment_data_is_payload png_file
            (lit "data:image/png;base64") (lit "iVBORw0KGgo=") _ _)).
  - cbn. intuition discriminate.
  - cbn. intuition discriminate.
Defined.

(** X15: a paste attaches the same pictures as the file picker would.
    [handlePaste] starts a read for an item exactly when its type holds
    "image", it comes with a file, and that file's type starts with
    "image/"; it swallows the paste as soon as one item with "image" in
    its type comes with a file, even if no read is started.  When every
    item's type is its file's type, the reads are those of
    [processFileArray] on all the files of the clipboard.  An event
    without clipboard data is left alone. *)
Theorem paste_attaches_pictures_only :
  forall (items : list ClipboardItem),
    let prevented := fst (handlePaste (Some items)) in
    let reads := snd (handlePaste (Some items)) in
    (forall f url,
       In (f, url) reads
       <-> exists it,
             In it items
             /\ contains (lit "image") (item_type it) = true
             /\ getAsFile it = Some f
             /\ is_image f = true /\ file_read f = Some url)
    /\ (prevented = true
        <-> exists it f,
              In it items
              /\ contains (lit "image") (item_type it) = true
              /\ getAsFile it = Some f)
    /\ ((forall it f,
           In it items -> getAsFile it = Some f ->
           item_type it = file_type f) ->
        reads
        = processFileArray
            (flat_map (fun it => match getAsFile it with
                                 | Some f => [f]
                                 | None => []
                                 end) items))
    /\ handlePaste None = (false, []).
Proof.
  intros items prevented reads.
  assert (Hfiles : forall f,
            In f (pasted_files items)
            <-> exists it,
                  In it items
                  /\ contains (lit "image") (item_type it) = true
                  /\ getAsFile it = Some f).
  { intros f. unfold pasted_files. rewrite in_flat_map. split.
    - intros (it & Hit & Hin). exists it.
      destruct (contains (lit "image") (item_type it)); [| contradiction].
      destruct (getAsFile it) as [g |]; [| contradiction].
      destruct Hin as [<- | []]. repeat split. exact Hit.
    - intros (it & Hit & Hc & Hf). exists it. split; [exact Hit |].
      rewrite Hc, Hf. left. reflexivity. }
  assert (Hreads : reads = processFileArray (pasted_files items)).
  { subst reads. unfold handlePaste.
    destruct (pasted_files items); reflexivity. }
  split; [intros f url; split | split; [split | split; [| reflexivity]]].
  - rewrite Hreads. intros H. apply processFileArray_In in H
      as (Hin & Hi & Hr).
    apply Hfiles in Hin as (it & Hit & Hc & Hf).
    exists it. repeat split; assumption.
  - rewrite Hreads. intros (it & Hit & Hc & Hf & Hi & Hr).
    apply processFileArray_In. repeat split; try assumption.
    apply Hfiles. exists it. repeat split; assumption.
  - subst prevented. unfold handlePaste.
    destruct (pasted_files items) as [| f fs]; cbn; [discriminate |].
    intros _.
    destruct (proj1 (Hfiles f) (or_introl eq_refl)) as (it & Hit & Hc & Hf).
    exists it, f. repeat split; assumption.
  - subst prevented. intros (it & f & Hit & Hc & Hf).
    assert (Hin : In f (pasted_files items))
      by (apply Hfiles; exists it; repeat split; assumption).
    unfold handlePaste.
    destruct (pasted_files items); [contradiction | reflexivity].
  - intros Hsame. rewrite Hreads.
    apply paste_test_drops_no_picture. exact Hsame.
Qed.

(* ------------------------------------------------------------------ *)
(** *** The two personas *)

Section Personas.

Lemma forallb_snoc (A : Type) (f : A -> bool) (l : list A) (x : A) :
  forallb f l = true -> f x = true -> forallb f (l ++ [x]) = true.
Proof.
  intros Hl Hx. rewrite forallb_app, Hl. cbn. rewrite Hx. reflexivity.
Qed.

Ltac personas Hc Hs Hr :=
  unfold personas_apart; cbn;
  split;
  [ intros c' E';
    first [ discriminate E'
          | injection E' as <-; reflexivity
          | apply Hc; congruence ]
  | split;
    [ intros c' E';
      first [ discriminate E'
            | injection E' as <-; reflexivity
            | apply Hs; congruence ]
    | repeat rewrite forallb_app; rewrite Hr; reflexivity ] ].

Lemma startConsultation_personas (o : Outcome) (w : World) :
  personas_apart w -> personas_apart (after (startConsultation o) w).
Proof.
  intros (Hc & Hs & Hr).
  unfold_prog. destruct (nothing_to_send w); cbn; [personas Hc Hs Hr |].
  destruct (ai w); cbn; [| personas Hc Hs Hr].
  destruct (List.length (selectedImages w)), o; cbn; personas Hc Hs Hr.
Qed.

Lemma sendMessage_personas (o : Outcome) (w : World) :
  personas_apart w -> personas_apart (after (sendMessage o) w).
Proof.
  intros (Hc & Hs & Hr).
  unfold_prog. destruct (chatInstance w) as [c |] eqn:Ec; cbn;
    [| personas Hc Hs Hr].
  pose proof (Hc c eq_refl) as Hcons. subst c.
  destruct (nothing_to_send w); cbn; [personas Hc Hs Hr |].
  destruct (List.length (selectedImages w)), o; cbn; personas Hc Hs Hr.
Qed.

Lemma finishAndGenerate_personas (o o' : Outcome) (w : World) :
  personas_apart w -> personas_apart (after (finishAndGenerate o o') w).
Proof.
  intros (Hc & Hs & Hr).
  unfold_prog. cbn. destruct (ai w) as [k |] eqn:Ek; cbn;
    [| personas Hc Hs Hr].
  destruct o as [| t]; cbn; [personas Hc Hs Hr |].
  repeat (rewrite Ek; cbn). destruct o' as [| u]; cbn; personas Hc Hs Hr.
Qed.

Lemma generateSdd_personas (o : Outcome) (w : World) :
  personas_apart w -> personas_apart (after (generateSdd o) w).
Proof.
  intros (Hc & Hs & Hr).
  unfold_prog. destruct (blank (sddInput w)); cbn; [personas Hc Hs Hr |].
  destruct (ai w); cbn; [| personas Hc Hs Hr].
  destruct o; cbn; personas Hc Hs Hr.
Qed.

Lemma sendSddReply_personas (o : Outcome) (w : World) :
  personas_apart w -> personas_apart (after (sendSddReply o) w).
Proof.
  intros (Hc & Hs & Hr).
  unfold_prog. destruct (sddChatInstance w) as [c |] eqn:Ec; cbn;
    [| personas Hc Hs Hr].
  pose proof (Hs c eq_refl) as Harch. subst c.
  destruct (blank (sddReplyInput w)); cbn; [personas Hc Hs Hr |].
  destruct o; cbn; personas Hc Hs Hr.
Qed.

Lemma handle_personas (e : Event) (w : World) :
  personas_apart w -> personas_apart (after (handle e) w).
Proof.
  intros H. destruct e; cbn [handle].
  - exact H.
  - rewrite after_then_ret.
    destruct (handleEnter_after event reply w) as [E | [E | E]];
      rewrite E;
      [exact H | apply startConsultation_personas
      | apply sendMessage_personas]; exact H.
  - apply startConsultation_personas. exact H.
  - apply sendMessage_personas. exact H.
  - exact H.
  - apply finishAndGenerate_personas. exact H.
  - destruct H as (Hc & Hs & Hr).
    split; [discriminate |]. split; [exact Hs | exact Hr].
  - exact H.
  - exact H.
  - apply generateSdd_personas. exact H.
  - exact H.
  - rewrite after_then_ret.
    destruct (handleSddEnter_after event reply w) as [E | E];
      rewrite E; [exact H | apply sendSddReply_personas; exact H].
  - apply sendSddReply_personas. exact H.
Qed.

End Personas.

(** X2: the two personas are never mixed up.  Whatever happens on the
    page, the consultation only ever holds a session created with the
    consultant's instruction (temperature 0.7) and the SDD page one
    created with the architect's (temperature 0.5); pictures are only
    sent on a consultant session, the SDD prompt only on an architect
    session, and the two generation prompts never go through a chat
    session. *)
Theorem personas_stay_apart :
  forall (events : list Event) (w : World),
    personas_apart w ->
    let w' := run_events events w in
    (forall c, chatInstance w' = Some c -> c = consultant_chat)
    /\ (forall c, sddChatInstance w' = Some c -> c = architect_chat)
    /\ forallb well_addressed (requests w') = true.
Proof.
  intros events. induction events as [| e events IH]; intros w H.
  - exact H.
  - exact (IH _ (handle_personas e H)).
Qed.

Lemma keyed_world_personas_apart : personas_apart keyed_world.
Proof.
  split; [discriminate |]. split; [discriminate | reflexivity].
Defined.

Lemma personas_stay_apart_witness :
  (forall c,
     chatInstance (run_events busy_afternoon keyed_world) = Some c ->
     c = consultant_chat)
  /\ (forall c,
        sddChatInstance (run_events busy_afternoon keyed_world) = Some c ->
        c = architect_chat)
  /\ forallb well_addressed
       (requests (run_events busy_afternoon keyed_world)) = true.
Proof.
  exact (@personas_stay_apart busy_afternoon keyed_world
           keyed_world_personas_apart).
Defined.
